(** * node-dependency-injection: the registry of [src/index.ts]

    A shallow embedding of the [DependencyInjection] class
    ([register], [resolve], [inject]) and the properties of its
    resolution engine.

    Conventions of the embedding.
    - JavaScript values are the inductive [value]; [VNum] holds integers,
      and stands for the number of the same value when it is a safe integer
      (below 2^53 in absolute value, see [safe]); an object is
      the list of its own enumerable properties in enumeration order; cyclic
      objects, which [JSON.stringify] rejects, are not values of this type.
    - The two plain objects [this.dependencies] and [this.dependants] are
      finite maps over their own property names.  Reading a name they have
      no property of their own for gives [undefined] in the embedding; the
      code reads the member inherited from [Object.prototype] when the name
      is one of [Object_prototype].  A statement that needs such a read to
      give [undefined] says so with a [plain] hypothesis.
    - The arrays under [this.dependants] are values (lists); two names never
      share one array object.  This is so in every store reached from a new
      registry; arrays shared through the constructor's [dependants] option
      are outside the embedding.
    - A resolver is a function object: its identity is a [func], and the
      properties the class stores on it ([dependencies], [is_resolved]) live
      in the [functions] component of the store, shared by every pending list
      that mentions the function.
    - Calling a resolver ([resolver.apply]) appends a [Call] to the [calls]
      trace.  Resolver bodies are opaque: they neither throw nor call back
      into the registry.
    - [Assert.ok] failing is the exception [AssertionError]; [log] only
      prints and is left out. *)

From Stdlib Require Import Ascii String.
From stdpp Require Import gmap strings list pretty.

Set Warnings "-register-all,-clear-no-such-hyp".

(** ** JavaScript values *)

(** A function object: an identity and the source text that
    [Function.prototype.toString] returns for it. *)
Record func := Func { func_id : nat; func_source : string }.

#[global] Instance func_eq_dec : EqDecision func.
Proof. solve_decision. Defined.

#[global] Instance func_countable : Countable func.
Proof.
  apply (inj_countable' (λ f, (func_id f, func_source f))
                        (λ p, Func p.1 p.2)).
  by intros [].
Defined.

Inductive value :=
| VUndefined
| VNull
| VBool (b : bool)
| VNum (n : Z)
| VStr (s : string)
| VArr (elements : list value)
| VObj (properties : list (string * value))
| VFun (f : func).

(** [v === undefined] *)
Definition is_undefined (v : value) : bool :=
  match v with VUndefined => true | _ => false end.

(** [v == null]: loose equality with [null] holds for [null] and
    [undefined] only. *)
Definition is_nullish (v : value) : bool :=
  match v with VUndefined | VNull => true | _ => false end.

(** [typeof v === 'string' && v.length > 0] *)
Definition is_nonempty_string (v : value) : bool :=
  match v with
  | VStr s => bool_decide (s ≠ "")
  | _ => false
  end.

(** [v instanceof Array && v.length > 0] *)
Definition is_nonempty_array (v : value) : bool :=
  match v with
  | VArr (_ :: _) => true
  | _ => false
  end.

(** [v instanceof Function] *)
Definition is_function (v : value) : bool :=
  match v with VFun _ => true | _ => false end.

Definition join (sep : string) (parts : list string) : string :=
  match parts with
  | [] => ""
  | p :: ps => foldl (λ acc q, acc +:+ sep +:+ q) p ps
  end.

(** [String(v)], the coercion a value undergoes when it is used as a
    property name. *)
Fixpoint ToString (v : value) : string :=
  match v with
  | VUndefined => "undefined"
  | VNull => "null"
  | VBool true => "true"
  | VBool false => "false"
  | VNum n => pretty n
  | VStr s => s
  | VArr l =>
      join "," (map (λ x, if is_nullish x then "" else ToString x) l)
  | VObj _ => "[object Object]"
  | VFun f => func_source f
  end.

(** ** [JSON.stringify] *)

Definition hex_digit (n : N) : ascii :=
  ascii_of_N (if (n <? 10)%N then 48 + n else 87 + n).

(** One character of [QuoteJSONString]. *)
Definition json_escape (c : ascii) : string :=
  let n := N_of_ascii c in
  let bs := ascii_of_N 92 in
  if (n =? 8)%N then String bs "b"
  else if (n =? 9)%N then String bs "t"
  else if (n =? 10)%N then String bs "n"
  else if (n =? 12)%N then String bs "f"
  else if (n =? 13)%N then String bs "r"
  else if (n =? 34)%N then String bs (String c "")
  else if (n =? 92)%N then String bs (String c "")
  else if (n <? 32)%N then
    String bs ("u00" +:+ String (hex_digit (n / 16)) (String (hex_digit (n mod 16)) ""))
  else String c "".

Fixpoint json_escape_all (s : string) : string :=
  match s with
  | EmptyString => ""
  | String c s' => json_escape c +:+ json_escape_all s'
  end.

Definition dquote : string := String (ascii_of_N 34) "".

Definition json_quote (s : string) : string :=
  dquote +:+ json_escape_all s +:+ dquote.

(** [JSON.stringify(v)]: [None] stands for the result [undefined], which
    the top-level values [undefined] and functions produce.  Inside an
    array such an element is written [null]; inside an object the property
    is dropped. *)
Fixpoint JSON_stringify (v : value) : option string :=
  match v with
  | VUndefined => None
  | VNull => Some "null"
  | VBool true => Some "true"
  | VBool false => Some "false"
  | VNum n => Some (pretty n)
  | VStr s => Some (json_quote s)
  | VArr l =>
      Some ("[" +:+ join "," (map (λ x, default "null" (JSON_stringify x)) l) +:+ "]")
  | VObj ps =>
      Some ("{" +:+
            join "," (mjoin (map (λ p,
                        match JSON_stringify p.2 with
                        | Some str => [json_quote p.1 +:+ ":" +:+ str]
                        | None => []
                        end) ps)) +:+ "}")
  | VFun _ => None
  end.

(** ** The store *)

(** The properties [register], [resolve] and [inject] keep on a resolver
    function ([interface Resolver]).  A property that was never set reads
    [undefined]: [None] for the name list, [false] for the flag, which is
    only ever tested for truthiness.  The array [resolve] stores is kept as
    the list of property names its elements are used as. *)
Module Resolver.
Record t := Make { dependencies : option (list string); is_resolved : bool }.
Definition fresh : t := Make None false.
Definition set_dependencies (names : list string) (r : t) : t :=
  Make (Some names) (is_resolved r).
Definition set_is_resolved (b : bool) (r : t) : t :=
  Make (dependencies r) b.
End Resolver.

(** The private fields of [class DependencyInjection]. *)
Record DependencyInjection := {
  debug : bool;
  dependencies : gmap string value;
  dependants : gmap string (list func)
}.

(** One [resolver.apply(resolver_context, resolver_dependencies)]. *)
Record Call := {
  callee : func;
  this_arg : gmap string value;
  arguments : list value
}.

Record Store := {
  this : DependencyInjection;
  functions : gmap func Resolver.t;
  calls : list Call
}.

(** [constructor(options = {})] *)
Record DependencyInjectionOptions := {
  opt_debug : option bool;
  opt_dependencies : option (gmap string value);
  opt_dependants : option (gmap string (list func))
}.

Definition no_options : DependencyInjectionOptions :=
  {| opt_debug := None; opt_dependencies := None; opt_dependants := None |}.

Definition constructor (options : DependencyInjectionOptions) : DependencyInjection :=
  {| debug := default false (opt_debug options);
     dependencies := default ∅ (opt_dependencies options);
     dependants := default ∅ (opt_dependants options) |}.

(** A program that has just run [new DependencyInjection()]: no function
    carries any resolver property and nothing has been called. *)
Definition initial : Store :=
  {| this := constructor no_options; functions := ∅; calls := [] |}.

(** [this.dependencies[name]]: a missing property reads [undefined].  This
    is what the code reads when [name] is a property of the object itself or
    is [plain]. *)
Definition get_dependency (deps : gmap string value) (name : string) : value :=
  default VUndefined (deps !! name).

(** [this.dependants[name] || []], for a [name] that is a property of the
    object itself or is [plain]. *)
Definition get_dependants (dts : gmap string (list func)) (name : string) : list func :=
  default [] (dts !! name).

Definition resolver_of (fs : gmap func Resolver.t) (f : func) : Resolver.t :=
  default Resolver.fresh (fs !! f).

(** ** Exceptions and the state monad of the methods *)

Inductive exn := AssertionError (message : string).

Definition M (A : Type) : Type := Store → Store * (exn + A).

#[global] Instance M_ret : MRet M := λ A a s, (s, inr a).

#[global] Instance M_bind : MBind M := λ A B k m s,
  match m s with
  | (s', inr a) => k a s'
  | (s', inl e) => (s', inl e)
  end.

Definition throw {A} (e : exn) : M A := λ s, (s, inl e).
Definition modify (f : Store → Store) : M unit := λ s, (f s, inr tt).

(** [Assert.ok(cond, message)] *)
Definition Assert_ok (cond : bool) (message : string) : M unit :=
  if cond then mret tt else throw (AssertionError message).

(** ** lodash's [_.without] *)

(** [_.without(array, ...values)]: [array] without every occurrence of each
    of [values]; functions are compared by identity. *)
Definition without (array values : list func) : list func :=
  filter (λ x, x ∉ values) array.

(** ** The methods *)

(** Lines 140-144 of [inject]: the body of the loop over the names a
    resolver asks for; a name whose current value is [null] or [undefined]
    is skipped. *)
Definition gather_step (deps : gmap string value)
    (acc : gmap string value * list value) (resolver_dependency_name : string)
  : gmap string value * list value :=
  let '(resolver_context, resolver_dependencies) := acc in
  let resolver_dependency := get_dependency deps resolver_dependency_name in
  if is_nullish resolver_dependency
  then (resolver_context, resolver_dependencies)
  else (<[resolver_dependency_name := resolver_dependency]> resolver_context,
        resolver_dependencies ++ [resolver_dependency]).

(** Lines 137-145: the receiver object and the argument list built for a
    resolver. *)
Definition gather (deps : gmap string value) (names : list string)
  : gmap string value * list value :=
  foldl (gather_step deps) (∅, []) names.

(** The state of the loop over [resolvers] in [inject]: the function
    objects, the calls made so far and the local list [resolved]. *)
Definition scan : Type := gmap func Resolver.t * list Call * list func.

(** Lines 133-152: the body of the loop over [resolvers]. *)
Definition inject_resolver (deps : gmap string value) (acc : scan) (resolver : func) : scan :=
  let '(fs, cs, resolved) := acc in
  let r := resolver_of fs resolver in
  if Resolver.is_resolved r then (fs, cs, resolved ++ [resolver])
  else
    let '(resolver_context, resolver_dependencies) :=
      gather deps (default [] (Resolver.dependencies r)) in
    match Resolver.dependencies r with
    | Some names =>
        if length resolver_dependencies =? length names
        then (<[resolver := Resolver.set_is_resolved true r]> fs,
              cs ++ [{| callee := resolver;
                        this_arg := resolver_context;
                        arguments := resolver_dependencies |}],
              resolved ++ [resolver])
        else acc
    | None => acc
    end.

Definition set_dependants (name : string) (l : list func) (di : DependencyInjection)
  : DependencyInjection :=
  {| debug := debug di;
     dependencies := dependencies di;
     dependants := <[name := l]> (dependants di) |}.

Definition set_dependency (name : string) (v : value) (di : DependencyInjection)
  : DependencyInjection :=
  {| debug := debug di;
     dependencies := <[name := v]> (dependencies di);
     dependants := dependants di |}.

(** Lines 129-155: the body of the loop over [dependencies] in [inject]. *)
Definition inject_dependency (s : Store) (dependency : string) : Store :=
  let resolvers := get_dependants (dependants (this s)) dependency in
  let '(fs, cs, resolved) :=
    foldl (inject_resolver (dependencies (this s))) (functions s, calls s, []) resolvers in
  {| this := set_dependants dependency (without resolvers resolved) (this s);
     functions := fs;
     calls := cs |}.

(** The elements of an array used as property names. *)
Definition property_names (v : value) : list string :=
  match v with
  | VArr l => map ToString l
  | _ => []
  end.

Definition non_empty_list_message : string :=
  "Dependencies have to be a non-empty list of dependencies".

(** [inject(dependencies)] *)
Definition inject (dependencies : value) : M unit :=
  Assert_ok (is_nonempty_array dependencies) non_empty_list_message;;
  modify (λ s, foldl inject_dependency s (property_names dependencies)).

(** Lines 108-111: the body of the loop in [resolve].  The [push] of line
    111 changes the array it finds; here it changes the list of [dependency]
    only, no array being shared between two names. *)
Definition attach (names : list string) (resolver : func) (s : Store) (dependency : string)
  : Store :=
  {| this := set_dependants dependency
               (get_dependants (dependants (this s)) dependency ++ [resolver]) (this s);
     functions := <[resolver := Resolver.set_dependencies names
                                  (resolver_of (functions s) resolver)]> (functions s);
     calls := calls s |}.

(** [resolve(dependencies, resolver)] *)
Definition resolve (dependencies resolver : value) : M unit :=
  Assert_ok (is_nonempty_array dependencies) non_empty_list_message;;
  Assert_ok (is_function resolver) "Resolver has to be a function";;
  match resolver with
  | VFun f =>
      let names := property_names dependencies in
      modify (λ s, foldl (attach names f) s names)
  | _ => mret tt
  end;;
  inject dependencies.

(** Lines 80-86: the loop of [register] that clears the flag of the
    resolvers pending on the key when the serialised value differs. *)
Definition reset_resolvers (dependency_value old_dependency_value : value)
    (resolvers : list func) (fs : gmap func Resolver.t) : gmap func Resolver.t :=
  foldl (λ fs resolver,
           if bool_decide (JSON_stringify dependency_value
                           ≠ JSON_stringify old_dependency_value)
           then <[resolver := Resolver.set_is_resolved false (resolver_of fs resolver)]> fs
           else fs)
        fs resolvers.

(** [register(dependency_key, dependency_value)] *)
Definition register (dependency_key dependency_value : value) : M unit :=
  Assert_ok (is_nonempty_string dependency_key)
    "Dependency name/key has to be passed as a non-empty string";;
  Assert_ok (negb (is_undefined dependency_value)) "Dependency (value) is required";;
  let key := ToString dependency_key in
  modify (λ s,
    let old_dependency_value := get_dependency (dependencies (this s)) key in
    let resolvers := get_dependants (dependants (this s)) key in
    {| this := set_dependency key dependency_value (this s);
       functions := reset_resolvers dependency_value old_dependency_value
                      resolvers (functions s);
       calls := calls s |});;
  inject (VArr [dependency_key]).

(** ** Programs: sequences of calls made by a client *)

Inductive op :=
| Register (dependency_key dependency_value : value)
| Resolve (dependencies resolver : value)
| Inject (dependencies : value).

Definition exec (o : op) : M unit :=
  match o with
  | Register k v => register k v
  | Resolve ds r => resolve ds r
  | Inject ds => inject ds
  end.

(** The client runs the calls one after the other and carries on after a
    call that throws. *)
Definition run (ops : list op) (s : Store) : Store :=
  foldl (λ s o, (exec o s).1) s ops.

(** The calls of one resolver, in order. *)
Definition calls_of (g : func) (cs : list Call) : list Call :=
  filter (λ c, callee c = g) cs.

(** What an observer sees of a call: callee, receiver properties, arguments. *)
Definition observe (c : Call) : func * list (string * value) * list value :=
  (callee c, map_to_list (this_arg c), arguments c).

(** ** Vocabulary of the properties *)

(** The pending list of a name and the resolver properties of a function
    in a store. *)
Definition pending (s : Store) (name : string) : list func :=
  get_dependants (dependants (this s)) name.

Definition resolver (s : Store) (g : func) : Resolver.t :=
  resolver_of (functions s) g.

(** Every name of the list has a value that is neither [null] nor
    [undefined]. *)
Definition ready (deps : gmap string value) (names : list string) : bool :=
  forallb (λ name, negb (is_nullish (get_dependency deps name))) names.

Definition is_ready (deps : gmap string value) (r : Resolver.t) : bool :=
  match Resolver.dependencies r with
  | Some names => ready deps names
  | None => false
  end.

(** The receiver object built for a resolver all of whose names have
    values: one property per name. *)
Definition context_of (deps : gmap string value) (names : list string)
  : gmap string value :=
  foldl (λ ctx name, <[name := get_dependency deps name]> ctx) ∅ names.

(** The call [inject] makes to a resolver whose names all have values. *)
Definition call_of (deps : gmap string value) (g : func) (names : list string) : Call :=
  {| callee := g;
     this_arg := context_of deps names;
     arguments := get_dependency deps <$> names |}.

(** What one iteration of [inject]'s inner loop does to the resolver it
    looks at, as seen on that resolver's properties and calls. *)
Definition visit (deps : gmap string value) (g : func) (v : Resolver.t * list Call)
  : Resolver.t * list Call :=
  if Resolver.is_resolved v.1 then v
  else if is_ready deps v.1
       then (Resolver.set_is_resolved true v.1,
             v.2 ++ [call_of deps g (default [] (Resolver.dependencies v.1))])
       else v.

(** The iteration puts the resolver on the list [resolved]. *)
Definition settled (deps : gmap string value) (r : Resolver.t) : bool :=
  Resolver.is_resolved r || is_ready deps r.

Definition state_of (g : func) (s : Store) : Resolver.t * list Call :=
  (resolver s g, calls_of g (calls s)).

(** The loop over [resolvers] that [inject] runs for one name. *)
Definition scanned (s : Store) (name : string) : scan :=
  foldl (inject_resolver (dependencies (this s))) (functions s, calls s, [])
        (pending s name).

(** The loop over [dependencies] in [inject]. *)
Definition dispatch (s : Store) (names : list string) : Store :=
  foldl inject_dependency s names.

(** The store [register] hands to [inject]: lines 78-89. *)
Definition registered (key : string) (v : value) (s : Store) : Store :=
  {| this := set_dependency key v (this s);
     functions := reset_resolvers v (get_dependency (dependencies (this s)) key)
                    (pending s key) (functions s);
     calls := calls s |}.

(** The store [resolve] hands to [inject]: lines 107-112. *)
Definition attached (names : list string) (f : func) (s : Store) : Store :=
  foldl (attach names f) s names.

(** A method call threw the assertion error. *)
Definition throws (res : Store * (exn + unit)) : Prop :=
  ∃ message, res.2 = inl (AssertionError message).

(** The array literal [[n1, ..., nk]] of strings. *)
Definition names (l : list string) : value := VArr (VStr <$> l).

(** [g] waits for the single name [name]: the name has never been given a
    value, and [g] sits on its pending list, unflagged, asking for exactly
    that name. *)
Definition waiting (name : string) (g : func) (s : Store) : Prop :=
  dependencies (this s) !! name = None
  ∧ g ∈ pending s name
  ∧ Resolver.dependencies (resolver s g) = Some [name]
  ∧ Resolver.is_resolved (resolver s g) = false.



(** Two resolver functions for the worked scenarios. *)
Definition example_f : func := Func 1 "function f() {}".
Definition example_g : func := Func 2 "function g() {}".

(** The two calls a program makes that this one must not make again. *)
Definition registers (name : string) (o : op) : Prop :=
  ∃ v, o = Register (VStr name) v.

Definition resolves (g : func) (o : op) : Prop :=
  ∃ ds, o = Resolve ds (VFun g).

(** A visit of [inject]'s inner loop calls the resolver: it is not flagged
    and all its names have values. *)
Definition fires (deps : gmap string value) (r : Resolver.t) : bool :=
  negb (Resolver.is_resolved r) && is_ready deps r.

(** The call [inject] makes to the function [g] of the store [s] when it
    fires. *)
Definition call_for (s : Store) (g : func) : Call :=
  call_of (dependencies (this s)) g
          (default [] (Resolver.dependencies (resolver s g))).

(** [f] has never been passed to [resolve] nor called. *)
Definition fresh_at (s : Store) (f : func) : Prop :=
  Resolver.dependencies (resolver s f) = None
  ∧ Resolver.is_resolved (resolver s f) = false.

(** [f] asks for [[A, B]], is not flagged, and is pending on both names. *)
Definition listed (s : Store) (f : func) (A B : string) : Prop :=
  resolver s f = Resolver.Make (Some [A; B]) false
  ∧ f ∈ pending s A
  ∧ f ∈ pending s B.

(** Two stores look the same from the function [g]: the same registered
    values, the same properties on [g], and [g] pending on the same
    names.  The other functions, their flags and their places on the lists
    may differ. *)
Definition agree (g : func) (s1 s2 : Store) : Prop :=
  dependencies (this s1) = dependencies (this s2)
  ∧ resolver s1 g = resolver s2 g
  ∧ ∀ name, g ∈ pending s1 name ↔ g ∈ pending s2 name.

(** A call that hands its resolver no [null] and no [undefined]. *)
Definition proper_call (c : Call) : Prop :=
  Forall (λ v, is_nullish v = false) (arguments c).

(** ** Where the embedding is exact *)

(** The property names every plain object inherits from [Object.prototype]
    (ECMAScript; Node.js 20).  On [{}] they read a function (an object for
    [__proto__]), not [undefined]. *)
Definition Object_prototype : list string :=
  ["constructor"; "__defineGetter__"; "__defineSetter__"; "hasOwnProperty";
   "__lookupGetter__"; "__lookupSetter__"; "isPrototypeOf";
   "propertyIsEnumerable"; "toString"; "valueOf"; "__proto__"; "toLocaleString"].

(** A name that is no member of [Object.prototype]: on an object without a
    property of its own by that name, it reads [undefined]. *)
Definition plain (name : string) : Prop := name ∉ Object_prototype.

#[global] Instance plain_dec name : Decision (plain name).
Proof. unfold plain. apply _. Defined.

(** The dependency list of a function mentions plain names only. *)
Definition plain_resolver (r : Resolver.t) : Prop :=
  Forall plain (default [] (Resolver.dependencies r)).

#[global] Instance plain_resolver_dec r : Decision (plain_resolver r).
Proof. unfold plain_resolver. apply _. Defined.

(** Every dependency list kept in the store mentions plain names only. *)
Definition plain_store (s : Store) : Prop :=
  map_Forall (λ _ r, plain_resolver r) (functions s).

#[global] Instance plain_store_dec s : Decision (plain_store s).
Proof. unfold plain_store. apply _. Defined.

(** A call whose names are all plain. *)
Definition plain_op (o : op) : Prop :=
  match o with
  | Register k _ => plain (ToString k)
  | Resolve ds _ => Forall plain (property_names ds)
  | Inject ds => Forall plain (property_names ds)
  end.

#[global] Instance plain_op_dec o : Decision (plain_op o).
Proof. destruct o; apply _. Defined.

(** A property name that [JSON.stringify] prints where the object lists
    it and that leaves [String(v)] alone: not [toJSON], which is called
    instead of printed, no member of [Object.prototype] ([toString] and
    [valueOf] are called by the coercion), and not led by a digit, as
    integer names are enumerated before the others. *)
Definition ordinary_key (k : string) : bool :=
  bool_decide (k ≠ "toJSON" ∧ plain k)
  && match k with
     | String c _ => negb ((48 <=? N_of_ascii c)%N && (N_of_ascii c <=? 57)%N)
     | EmptyString => true
     end.

(** A value the embedding holds exactly.  Its numbers are safe integers:
    those a double holds exactly and [JSON.stringify] and [String] print
    in plain decimal.  Its objects have distinct property names, all
    ordinary. *)
Fixpoint safe (v : value) : bool :=
  match v with
  | VNum n => bool_decide (Z.abs n < 2 ^ 53)%Z
  | VArr l => forallb safe l
  | VObj ps =>
      bool_decide (NoDup ps.*1) && forallb (λ p, ordinary_key p.1 && safe p.2) ps
  | _ => true
  end.

(** A call whose values are all safe. *)
Definition safe_op (o : op) : Prop :=
  match o with
  | Register k v => safe k = true ∧ safe v = true
  | Resolve ds _ => safe ds = true
  | Inject ds => safe ds = true
  end.

#[global] Instance safe_op_dec o : Decision (safe_op o).
Proof. destruct o; apply _. Defined.

(** A call on which the embedding is exact: plain names, safe values. *)
Definition exact_op (o : op) : Prop := plain_op o ∧ safe_op o.

#[global] Instance exact_op_dec o : Decision (exact_op o).
Proof. unfold exact_op. apply _. Defined.

(** Closes a decidable fact about given names, calls and stores by
    evaluation. *)
Ltac by_evaluation := apply (bool_decide_unpack _); vm_compute; exact I.

(** * Properties *)

(** ** The argument tuple *)

Section gather.
Variable deps : gmap string value.

Lemma gather_args_from names ctx args :
  (foldl (gather_step deps) (ctx, args) names).2
  = args ++ filter (λ v, is_nullish v = false) (get_dependency deps <$> names).
Proof.
  revert ctx args. induction names as [|n names IH]; intros ctx args; simpl.
  - by rewrite app_nil_r.
  - rewrite filter_cons. destruct (is_nullish (get_dependency deps n)) eqn:E.
    + rewrite IH. by rewrite decide_False.
    + rewrite IH. rewrite decide_True by done. by rewrite <- app_assoc.
Qed.

Lemma gather_args names :
  (gather deps names).2
  = filter (λ v, is_nullish v = false) (get_dependency deps <$> names).
Proof. unfold gather. apply (gather_args_from names ∅ []). Qed.

Lemma ready_Forall names :
  ready deps names = true
  ↔ Forall (λ name, is_nullish (get_dependency deps name) = false) names.
Proof.
  unfold ready. rewrite forallb_forall, Forall_forall.
  split; intros H x Hx.
  - apply negb_true_iff, H. by apply list_elem_of_In.
  - apply negb_true_iff, H. by apply list_elem_of_In.
Qed.

(** The test [resolver_dependencies.length === resolver.dependencies.length]
    holds exactly when no name was skipped. *)
Lemma gather_length names :
  (length (gather deps names).2 =? length names) = ready deps names.
Proof.
  rewrite gather_args. induction names as [|n names IH]; [done|].
  rewrite fmap_cons, filter_cons.
  pose proof (length_filter (λ v, is_nullish v = false)
                (get_dependency deps <$> names)) as Hle.
  rewrite length_fmap in Hle.
  case_decide as E; simpl.
  - rewrite E. exact IH.
  - apply not_false_is_true in E. rewrite E. simpl.
    apply Nat.eqb_neq. lia.
Qed.

Lemma gather_from_ready names ctx args :
  ready deps names = true →
  foldl (gather_step deps) (ctx, args) names
  = (foldl (λ ctx name, <[name := get_dependency deps name]> ctx) ctx names,
     args ++ (get_dependency deps <$> names)).
Proof.
  revert ctx args. induction names as [|n names IH]; intros ctx args Hr; simpl.
  - by rewrite app_nil_r.
  - simpl in Hr. apply andb_true_iff in Hr as [Hn Hr].
    apply negb_true_iff in Hn. rewrite Hn.
    rewrite IH by done. by rewrite <- app_assoc.
Qed.

Lemma gather_ready names :
  ready deps names = true →
  gather deps names = (context_of deps names, get_dependency deps <$> names).
Proof. intros Hr. unfold gather. by rewrite (gather_from_ready names ∅ [] Hr). Qed.

Lemma context_of_lookup_from names (ctx : gmap string value) name :
  foldl (λ ctx name, <[name := get_dependency deps name]> ctx) ctx names !! name
  = if decide (name ∈ names) then Some (get_dependency deps name) else ctx !! name.
Proof.
  revert ctx. induction names as [|n names IH]; intros ctx; cbn [foldl].
  - case_decide; [set_solver | done].
  - rewrite IH. repeat case_decide; try done; try set_solver.
    + destruct (decide (n = name)) as [->|Hne]; [|set_solver].
      by rewrite lookup_insert_eq.
    + rewrite lookup_insert_ne; [done | set_solver].
Qed.

(** The receiver maps each requested name to its value, and nothing else. *)
Lemma context_of_lookup names name :
  context_of deps names !! name
  = if decide (name ∈ names) then Some (get_dependency deps name) else None.
Proof. unfold context_of. by rewrite context_of_lookup_from, lookup_empty. Qed.
End gather.

(** ** One pass over a pending list *)

Section scan.
Variable deps : gmap string value.

Lemma resolver_of_insert fs f (r : Resolver.t) g :
  resolver_of (<[f := r]> fs) g = if decide (f = g) then r else resolver_of fs g.
Proof.
  unfold resolver_of. case_decide as E.
  - subst. by rewrite lookup_insert_eq.
  - by rewrite lookup_insert_ne.
Qed.

Lemma calls_of_snoc g cs c :
  calls_of g (cs ++ [c]) = calls_of g cs ++ (if decide (callee c = g) then [c] else []).
Proof.
  unfold calls_of. rewrite filter_app, filter_cons, filter_nil. by case_decide.
Qed.

(** The loop body, with the length test read as [is_ready]. *)
Lemma inject_resolver_eq fs cs resolved f :
  inject_resolver deps (fs, cs, resolved) f
  = let r := resolver_of fs f in
    if Resolver.is_resolved r then (fs, cs, resolved ++ [f])
    else if is_ready deps r
         then (<[f := Resolver.set_is_resolved true r]> fs,
               cs ++ [call_of deps f (default [] (Resolver.dependencies r))],
               resolved ++ [f])
         else (fs, cs, resolved).
Proof.
  unfold inject_resolver, is_ready. cbv zeta.
  destruct (Resolver.is_resolved (resolver_of fs f)); [done|].
  destruct (Resolver.dependencies (resolver_of fs f)) as [names|]; simpl.
  - pose proof (gather_length deps names) as Hlen.
    destruct (gather deps names) as [ctx args] eqn:Hg. simpl in Hlen.
    rewrite Hlen. destruct (ready deps names) eqn:Hr; [|done].
    rewrite (gather_ready deps names Hr) in Hg. by inversion Hg.
  - done.
Qed.

Lemma visit_idem g v : visit deps g (visit deps g v) = visit deps g v.
Proof.
  unfold visit. destruct v as [r cs]; simpl.
  destruct (Resolver.is_resolved r) eqn:E1; simpl; [by rewrite E1|].
  destruct (is_ready deps r) eqn:E2; simpl; [done|].
  by rewrite E1, E2.
Qed.

Lemma visit_is_resolved g v :
  Resolver.is_resolved (visit deps g v).1 = settled deps v.1.
Proof.
  unfold visit, settled. destruct v as [r cs]; simpl.
  destruct (Resolver.is_resolved r) eqn:E1; simpl; [done|].
  by destruct (is_ready deps r) eqn:E2.
Qed.

Lemma visit_dependencies g v :
  Resolver.dependencies (visit deps g v).1 = Resolver.dependencies v.1.
Proof.
  unfold visit. destruct v as [r cs]; simpl.
  destruct (Resolver.is_resolved r); [done|]. by destruct (is_ready deps r).
Qed.

Lemma visit_settled g v : settled deps (visit deps g v).1 = settled deps v.1.
Proof.
  unfold settled at 1. rewrite visit_is_resolved.
  unfold is_ready. rewrite visit_dependencies.
  unfold settled, is_ready. by destruct (Resolver.is_resolved v.1), (Resolver.dependencies v.1) as [names|];
    simpl; try done; destruct (ready deps names).
Qed.

(** The iteration that looks at [g]. *)
Lemma inject_resolver_self g acc :
  let acc' := inject_resolver deps acc g in
  (resolver_of acc'.1.1 g, calls_of g acc'.1.2)
  = visit deps g (resolver_of acc.1.1 g, calls_of g acc.1.2)
  ∧ (g ∈ acc'.2 ↔ g ∈ acc.2 ∨ settled deps (resolver_of acc.1.1 g) = true).
Proof.
  destruct acc as [[fs cs] res]. cbv zeta. rewrite inject_resolver_eq. cbv zeta.
  unfold visit, settled. simpl.
  destruct (Resolver.is_resolved (resolver_of fs g)) eqn:E1; simpl.
  - split; [done|]. set_solver.
  - destruct (is_ready deps (resolver_of fs g)) eqn:E2; simpl.
    + rewrite resolver_of_insert, decide_True by done.
      rewrite calls_of_snoc. simpl. rewrite decide_True by done.
      split; [done|]. set_solver.
    + split; [done|]. naive_solver.
Qed.

(** An iteration that looks at another function. *)
Lemma inject_resolver_other g f acc :
  f ≠ g →
  let acc' := inject_resolver deps acc f in
  resolver_of acc'.1.1 g = resolver_of acc.1.1 g
  ∧ calls_of g acc'.1.2 = calls_of g acc.1.2
  ∧ (g ∈ acc'.2 ↔ g ∈ acc.2).
Proof.
  intros Hne. destruct acc as [[fs cs] res]. cbv zeta.
  rewrite inject_resolver_eq. cbv zeta.
  destruct (Resolver.is_resolved (resolver_of fs f)); simpl.
  - split_and!; [done..|]. set_solver.
  - destruct (is_ready deps (resolver_of fs f)); simpl; [|done].
    rewrite resolver_of_insert, decide_False by done.
    rewrite calls_of_snoc. simpl. rewrite decide_False by done.
    rewrite app_nil_r. split_and!; [done..|]. set_solver.
Qed.

(** The whole loop, as seen on one function [g]: it is visited when it
    occurs in the list, and it lands on [resolved] when the visit leaves
    it flagged. *)
Lemma scan_spec g l acc :
  let acc' := foldl (inject_resolver deps) acc l in
  (resolver_of acc'.1.1 g, calls_of g acc'.1.2)
  = (if decide (g ∈ l)
     then visit deps g (resolver_of acc.1.1 g, calls_of g acc.1.2)
     else (resolver_of acc.1.1 g, calls_of g acc.1.2))
  ∧ (g ∈ acc'.2
     ↔ g ∈ acc.2 ∨ (g ∈ l ∧ settled deps (resolver_of acc.1.1 g) = true)).
Proof.
  revert acc. induction l as [|f l IH]; intros acc; cbn [foldl].
  - cbv zeta. rewrite decide_False by set_solver. split; [done|]. set_solver.
  - specialize (IH (inject_resolver deps acc f)). cbv zeta in *.
    destruct IH as [IHs IHm]. rewrite IHs, IHm. clear IHs IHm.
    destruct (decide (f = g)) as [->|Hne].
    + destruct (inject_resolver_self g acc) as [Hs Hm].
      assert (Hr : resolver_of (inject_resolver deps acc g).1.1 g
                   = (visit deps g (resolver_of acc.1.1 g, calls_of g acc.1.2)).1)
        by (by rewrite <- Hs).
      rewrite Hs, Hm, Hr. rewrite visit_settled. simpl.
      rewrite (decide_True (P := g ∈ g :: l)) by set_solver.
      split.
      * case_decide; [apply visit_idem | done].
      * set_solver.
    + destruct (inject_resolver_other g f acc Hne) as (Hr & Hc & Hm).
      rewrite Hr, Hc, Hm. split.
      * repeat case_decide; try done; set_solver.
      * set_solver.
Qed.
End scan.

(** ** Dispatch on one name, and on a list of names *)

Lemma without_sublist array values : without array values `sublist_of` array.
Proof. apply sublist_filter. Qed.

Lemma elem_of_without g array values :
  g ∈ without array values ↔ g ∈ array ∧ g ∉ values.
Proof. unfold without. rewrite list_elem_of_filter. tauto. Qed.

Lemma pending_set_dependants s fs cs d l d' :
  pending {| this := set_dependants d l (this s); functions := fs; calls := cs |} d'
  = if decide (d = d') then l else pending s d'.
Proof.
  unfold pending, get_dependants. simpl. case_decide as E.
  - subst. by rewrite lookup_insert_eq.
  - by rewrite lookup_insert_ne.
Qed.

Section inject_dependency.
Variables (s : Store) (d : string).

Lemma inject_dependency_eq :
  inject_dependency s d
  = {| this := set_dependants d (without (pending s d) (scanned s d).2) (this s);
       functions := (scanned s d).1.1;
       calls := (scanned s d).1.2 |}.
Proof.
  unfold inject_dependency, scanned, pending.
  by destruct (foldl _ _ _) as [[fs cs] res].
Qed.

Lemma inject_dependency_dependencies :
  dependencies (this (inject_dependency s d)) = dependencies (this s).
Proof. by rewrite inject_dependency_eq. Qed.

Lemma inject_dependency_debug :
  debug (this (inject_dependency s d)) = debug (this s).
Proof. by rewrite inject_dependency_eq. Qed.

Lemma inject_dependency_dependants_ne d' :
  d ≠ d' →
  dependants (this (inject_dependency s d)) !! d' = dependants (this s) !! d'.
Proof. intros. rewrite inject_dependency_eq. simpl. by rewrite lookup_insert_ne. Qed.

Lemma inject_dependency_pending_ne d' :
  d ≠ d' → pending (inject_dependency s d) d' = pending s d'.
Proof.
  intros. unfold pending, get_dependants.
  by rewrite inject_dependency_dependants_ne.
Qed.

Lemma inject_dependency_dependants_eq :
  dependants (this (inject_dependency s d)) !! d
  = Some (without (pending s d) (scanned s d).2).
Proof. rewrite inject_dependency_eq. simpl. by rewrite lookup_insert_eq. Qed.

Lemma inject_dependency_sublist d' :
  pending (inject_dependency s d) d' `sublist_of` pending s d'.
Proof.
  rewrite inject_dependency_eq, pending_set_dependants.
  case_decide; [subst; apply without_sublist | done].
Qed.

Lemma inject_dependency_state g :
  state_of g (inject_dependency s d)
  = if decide (g ∈ pending s d) then visit (dependencies (this s)) g (state_of g s) else state_of g s.
Proof.
  rewrite inject_dependency_eq. unfold state_of, resolver. simpl.
  apply (scan_spec (dependencies (this s)) g (pending s d) (functions s, calls s, [])).
Qed.

Lemma inject_dependency_settled g :
  settled (dependencies (this s)) (resolver (inject_dependency s d) g) = settled (dependencies (this s)) (resolver s g).
Proof.
  change (resolver (inject_dependency s d) g)
    with (state_of g (inject_dependency s d)).1.
  rewrite inject_dependency_state. case_decide; [|done].
  by rewrite visit_settled.
Qed.

(** A resolver stays on the dispatched list exactly when the visit does
    not leave it flagged. *)
Lemma inject_dependency_elem_of g :
  g ∈ pending (inject_dependency s d) d
  ↔ g ∈ pending s d ∧ settled (dependencies (this s)) (resolver s g) = false.
Proof.
  rewrite inject_dependency_eq, pending_set_dependants, decide_True by done.
  rewrite elem_of_without.
  destruct (scan_spec (dependencies (this s)) g (pending s d) (functions s, calls s, [])) as [_ Hm].
  fold (scanned s d) in Hm. rewrite Hm. simpl. unfold resolver.
  destruct (settled (dependencies (this s)) (resolver_of (functions s) g)); set_solver.
Qed.
End inject_dependency.

Section dispatch.

Lemma dispatch_cons s d names :
  dispatch s (d :: names) = dispatch (inject_dependency s d) names.
Proof. done. Qed.

Lemma dispatch_dependencies names s :
  dependencies (this (dispatch s names)) = dependencies (this s).
Proof.
  revert s. induction names as [|d names IH]; intros s; [done|].
  by rewrite dispatch_cons, IH, inject_dependency_dependencies.
Qed.

Lemma dispatch_debug names s : debug (this (dispatch s names)) = debug (this s).
Proof.
  revert s. induction names as [|d names IH]; intros s; [done|].
  by rewrite dispatch_cons, IH, inject_dependency_debug.
Qed.

(** Pending lists of names that are not dispatched are left alone. *)
Lemma dispatch_dependants_notin names s d :
  d ∉ names → dependants (this (dispatch s names)) !! d = dependants (this s) !! d.
Proof.
  revert s. induction names as [|d' names IH]; intros s Hd; [done|].
  rewrite dispatch_cons, IH by set_solver.
  apply inject_dependency_dependants_ne. set_solver.
Qed.

Lemma dispatch_pending_notin names s d :
  d ∉ names → pending (dispatch s names) d = pending s d.
Proof.
  intros. unfold pending, get_dependants. by rewrite dispatch_dependants_notin.
Qed.


Lemma dispatch_settled names s g :
  settled (dependencies (this s)) (resolver (dispatch s names) g)
  = settled (dependencies (this s)) (resolver s g).
Proof.
  revert s. induction names as [|d names IH]; intros s; [done|].
  rewrite dispatch_cons.
  rewrite <- (inject_dependency_dependencies s d) at 1.
  by rewrite IH, inject_dependency_dependencies, inject_dependency_settled.
Qed.

(** A function is visited when some dispatched name has it pending;
    visiting twice is visiting once. *)
Lemma dispatch_state names s g :
  state_of g (dispatch s names)
  = if decide (Exists (λ d, g ∈ pending s d) names)
    then visit (dependencies (this s)) g (state_of g s)
    else state_of g s.
Proof.
  revert s. induction names as [|d names IH]; intros s.
  - rewrite decide_False; [done|]. by intros ?%Exists_nil.
  - rewrite dispatch_cons, IH, inject_dependency_dependencies,
      inject_dependency_state.
    destruct (decide (g ∈ pending s d)) as [Hin|Hin].
    + rewrite (decide_True (P := Exists _ (d :: names)))
        by (by apply Exists_cons_hd).
      case_decide; [apply visit_idem | done].
    + assert (Exists (λ d0, g ∈ pending (inject_dependency s d) d0) names
              ↔ Exists (λ d0, g ∈ pending s d0) (d :: names)) as Hiff.
      { rewrite Exists_cons, !Exists_exists. split.
        - intros (d0 & Hd0 & Hg). right. exists d0. split; [done|].
          eapply elem_of_sublist; [done | apply inject_dependency_sublist].
        - intros [?|(d0 & Hd0 & Hg)]; [done|]. exists d0. split; [done|].
          destruct (decide (d = d0)) as [->|Hne]; [done|].
          by rewrite inject_dependency_pending_ne. }
      repeat case_decide; try done; tauto.
Qed.

(** A resolver stays pending on a dispatched name exactly when it was
    pending there and the visit does not leave it flagged. *)
Lemma dispatch_elem_of names s d g :
  d ∈ names →
  g ∈ pending (dispatch s names) d
  ↔ g ∈ pending s d ∧ settled (dependencies (this s)) (resolver s g) = false.
Proof.
  revert s. induction names as [|d' names IH]; intros s Hd; [set_solver|].
  rewrite dispatch_cons.
  destruct (decide (d ∈ names)) as [Hin|Hin].
  - rewrite IH by done.
    rewrite inject_dependency_dependencies, inject_dependency_settled.
    destruct (decide (d' = d)) as [->|Hne].
    + rewrite inject_dependency_elem_of. tauto.
    + by rewrite inject_dependency_pending_ne.
  - assert (d' = d) as -> by set_solver.
    rewrite dispatch_pending_notin by done.
    apply inject_dependency_elem_of.
Qed.
End dispatch.


(** ** The three methods as store transformers *)

Lemma inject_eq ds s :
  inject ds s
  = if is_nonempty_array ds
    then (dispatch s (property_names ds), inr tt)
    else (s, inl (AssertionError non_empty_list_message)).
Proof. unfold inject. by destruct (is_nonempty_array ds). Qed.

Lemma register_eq k v s :
  register k v s
  = if is_nonempty_string k
    then if is_undefined v
         then (s, inl (AssertionError "Dependency (value) is required"))
         else (dispatch (registered (ToString k) v s) [ToString k], inr tt)
    else (s, inl (AssertionError
                    "Dependency name/key has to be passed as a non-empty string")).
Proof.
  unfold register. destruct (is_nonempty_string k); [|done].
  by destruct (is_undefined v).
Qed.

Lemma resolve_eq ds r s :
  resolve ds r s
  = if is_nonempty_array ds
    then match r with
         | VFun f => (dispatch (attached (property_names ds) f s) (property_names ds),
                      inr tt)
         | _ => (s, inl (AssertionError "Resolver has to be a function"))
         end
    else (s, inl (AssertionError non_empty_list_message)).
Proof.
  unfold resolve. destruct ds as [| | | | |[|x l]| |]; try done; by destruct r.
Qed.

Lemma property_names_names l : property_names (names l) = l.
Proof.
  unfold names, property_names. induction l as [|n l IH]; [done|].
  rewrite fmap_cons. simpl. by f_equal.
Qed.

Lemma is_nonempty_array_names l : is_nonempty_array (names l) = bool_decide (l ≠ []).
Proof. by destruct l. Qed.

Lemma is_nonempty_string_spec k :
  is_nonempty_string k = true ↔ ∃ name, k = VStr name ∧ name ≠ "".
Proof.
  destruct k; simpl; try (split; [done | by intros (? & ? & ?)]).
  rewrite bool_decide_eq_true. split; [eauto | by intros (? & [= ->] & ?)].
Qed.

Lemma is_undefined_spec v : is_undefined v = true ↔ v = VUndefined.
Proof. by destruct v. Qed.

Lemma is_nonempty_array_spec ds :
  is_nonempty_array ds = true ↔ ∃ x l, ds = VArr (x :: l).
Proof.
  destruct ds as [| | | | |[|x l]| |]; simpl;
    try (split; [done | by intros (? & ? & ?)]).
  split; eauto.
Qed.

Lemma is_function_spec r : is_function r = true ↔ ∃ f, r = VFun f.
Proof. destruct r; simpl; try (split; [done | by intros (? & ?)]). split; eauto. Qed.

(** ** The store before dispatch *)

Lemma set_is_resolved_twice b r :
  Resolver.set_is_resolved b (Resolver.set_is_resolved b r) = Resolver.set_is_resolved b r.
Proof. done. Qed.

(** The reset loop of [register] clears the flag of the functions on the
    list when the serialised values differ, and touches nothing else. *)
Lemma resolver_of_reset v old l fs g :
  resolver_of (reset_resolvers v old l fs) g
  = if decide (g ∈ l ∧ JSON_stringify v ≠ JSON_stringify old)
    then Resolver.set_is_resolved false (resolver_of fs g)
    else resolver_of fs g.
Proof.
  unfold reset_resolvers. revert fs. induction l as [|f l IH]; intros fs; cbn [foldl].
  - rewrite decide_False; [done | set_solver].
  - rewrite IH. case_bool_decide as Hneq.
    + rewrite resolver_of_insert.
      destruct (decide (f = g)) as [->|Hne].
      * rewrite (decide_True (P := g ∈ g :: l ∧ _)) by set_solver.
        by case_decide.
      * repeat case_decide; try done; set_solver.
    + rewrite !decide_False; [done | tauto..].
Qed.

Lemma registered_dependencies key v s :
  dependencies (this (registered key v s)) = <[key := v]> (dependencies (this s)).
Proof. done. Qed.

Lemma registered_pending key v s d : pending (registered key v s) d = pending s d.
Proof. done. Qed.

Lemma registered_resolver key v s g :
  resolver (registered key v s) g
  = if decide (g ∈ pending s key
               ∧ JSON_stringify v
                 ≠ JSON_stringify (get_dependency (dependencies (this s)) key))
    then Resolver.set_is_resolved false (resolver s g)
    else resolver s g.
Proof. unfold resolver, registered. simpl. apply resolver_of_reset. Qed.

Lemma registered_resolver_dependencies key v s g :
  Resolver.dependencies (resolver (registered key v s) g)
  = Resolver.dependencies (resolver s g).
Proof. rewrite registered_resolver. by case_decide. Qed.

Section attach.
Variables (names : list string) (f : func).

Lemma attach_fold_dependencies l s :
  dependencies (this (foldl (attach names f) s l)) = dependencies (this s).
Proof. revert s. induction l as [|d l IH]; intros s; [done|]. cbn [foldl]. by rewrite IH. Qed.

Lemma attach_fold_calls l s : calls (foldl (attach names f) s l) = calls s.
Proof. revert s. induction l as [|d l IH]; intros s; [done|]. cbn [foldl]. by rewrite IH. Qed.

Lemma attach_fold_resolver l s g :
  resolver (foldl (attach names f) s l) g
  = if decide (f = g ∧ l ≠ [])
    then Resolver.set_dependencies names (resolver s g)
    else resolver s g.
Proof.
  revert s. induction l as [|d l IH]; intros s; cbn [foldl].
  - rewrite decide_False; [done | tauto].
  - rewrite IH. unfold resolver, attach. simpl. rewrite resolver_of_insert.
    destruct (decide (f = g)) as [->|Hne].
    + rewrite (decide_True (P := g = g ∧ d :: l ≠ [])) by done.
      by case_decide.
    + rewrite !decide_False; [done | tauto..].
Qed.

Lemma attach_fold_elem_of l s d g :
  g ∈ pending (foldl (attach names f) s l) d ↔ g ∈ pending s d ∨ (g = f ∧ d ∈ l).
Proof.
  revert s. induction l as [|d' l IH]; intros s; cbn [foldl].
  - set_solver.
  - rewrite IH. unfold attach. rewrite pending_set_dependants.
    fold (pending s d'). case_decide; set_solver.
Qed.
End attach.

(** ** Argument validation *)

(** C8.  [register(name, value)] throws the assertion error exactly when
    [name] is not a non-empty string or [value] is [undefined]; when it
    throws, the store (both maps, every resolver flag, the calls made) is
    the one it was given; [null] is accepted as a value: for a non-empty
    string as name, [register(name, null)] does not throw the assertion
    error. *)
Theorem C8_register_throws_iff k v s :
  (throws (register k v s)
   ↔ (¬ ∃ name, k = VStr name ∧ name ≠ "") ∨ v = VUndefined)
  ∧ (throws (register k v s) → (register k v s).1 = s)
  ∧ ((∃ name, k = VStr name ∧ name ≠ "") → ¬ throws (register k VNull s)).
Proof.
  rewrite <- is_nonempty_string_spec, <- is_undefined_spec.
  rewrite !register_eq. unfold throws.
  destruct (is_nonempty_string k), (is_undefined v); simpl; split_and!.
  all: try done.
  all: try (by intros [message ?]).
  all: try (by intros _ [message ?]).
  all: try (split; [by intros [message ?] | by intros [[]|]]).
  all: split; [intros _ | intros _; eauto].
  all: first [by right | left; by intros ?].
Qed.

(** C9.  [resolve(names, resolver)] throws the assertion error exactly when
    [names] is not a non-empty array or [resolver] is not a function; so do
    [resolve([], f)] and [resolve(["a"], "not-callable")]; when it throws,
    the store is the one it was given. *)
Theorem C9_resolve_throws_iff ds r s :
  (throws (resolve ds r s)
   ↔ (¬ ∃ x l, ds = VArr (x :: l)) ∨ (¬ ∃ f, r = VFun f))
  ∧ throws (resolve (VArr []) r s)
  ∧ throws (resolve (names ["a"]) (VStr "not-callable") s)
  ∧ (throws (resolve ds r s) → (resolve ds r s).1 = s).
Proof.
  rewrite <- is_nonempty_array_spec, <- is_function_spec.
  rewrite !resolve_eq. unfold throws. split_and!.
  - destruct (is_nonempty_array ds).
    + destruct r; simpl; try (split; [intros _; right; by intros ? | eauto]).
      split; [by intros [? ?] | by intros [[]|[]]].
    + split; [intros _; left; by intros ? | eauto].
  - simpl. eauto.
  - simpl. eauto.
  - destruct (is_nonempty_array ds); [|done].
    destruct r; simpl; try done. by intros [? ?].
Qed.

(** ** Frame properties *)



(** ** When dispatch calls a resolver *)

Lemma state_of_calls g s : (state_of g s).2 = calls_of g (calls s).
Proof. done. Qed.

Lemma state_of_resolver g s : (state_of g s).1 = resolver s g.
Proof. done. Qed.

(** A resolver that is flagged, or that lacks a value, is left as it is. *)
Lemma dispatch_idle ns s g :
  Resolver.is_resolved (resolver s g) = true
  ∨ is_ready (dependencies (this s)) (resolver s g) = false →
  state_of g (dispatch s ns) = state_of g s.
Proof.
  intros H. rewrite dispatch_state. case_decide; [|done].
  unfold visit. rewrite state_of_resolver.
  destruct H as [-> | H]; [done|]. rewrite H.
  by destruct (Resolver.is_resolved (resolver s g)).
Qed.

(** A resolver that is pending on a dispatched name, not flagged, and has
    all its values is flagged and called once. *)
Lemma dispatch_fires ns s g d l :
  d ∈ ns → g ∈ pending s d →
  Resolver.is_resolved (resolver s g) = false →
  Resolver.dependencies (resolver s g) = Some l →
  ready (dependencies (this s)) l = true →
  state_of g (dispatch s ns)
  = (Resolver.set_is_resolved true (resolver s g),
     calls_of g (calls s) ++ [call_of (dependencies (this s)) g l]).
Proof.
  intros Hd Hg Hflag Hl Hr. rewrite dispatch_state.
  rewrite decide_True by (apply Exists_exists; eauto).
  unfold visit, is_ready. rewrite state_of_resolver, state_of_calls.
  by rewrite Hflag, Hl, Hr.
Qed.

(** Either dispatch makes no call to [g], or [g] had all its values. *)
Lemma dispatch_calls_ready ns s g :
  calls_of g (calls (dispatch s ns)) = calls_of g (calls s)
  ∨ is_ready (dependencies (this s)) (resolver s g) = true.
Proof.
  destruct (is_ready (dependencies (this s)) (resolver s g)) eqn:E; [by right|].
  left. rewrite <- !state_of_calls. rewrite dispatch_idle; [done | by right].
Qed.

Lemma ready_elem_of deps l name :
  ready deps l = true → name ∈ l → is_nullish (get_dependency deps name) = false.
Proof.
  rewrite ready_Forall, Forall_forall. intros H Hin. by apply H.
Qed.

Lemma get_dependency_insert deps key v name :
  get_dependency (<[key := v]> deps) name
  = if decide (key = name) then v else get_dependency deps name.
Proof.
  unfold get_dependency. case_decide as E.
  - subst. by rewrite lookup_insert_eq.
  - by rewrite lookup_insert_ne.
Qed.

(** ** Null values *)

(** C3.  [register] accepts [null] and stores it: for a name that is no
    member of [Object.prototype] it returns normally with [null] in the map.
    A resolver one of whose names currently holds [null] gets fewer
    arguments gathered than it has names, and no dispatch calls it: neither
    the one [register] runs for the [null] it has just stored, nor any later
    [inject]. *)
Theorem C3_null_is_stored_and_never_ready s name (Hname : name ≠ "") :
  (plain name →
     (register (VStr name) VNull s).2 = inr tt
     ∧ dependencies (this (register (VStr name) VNull s).1) !! name = Some VNull)
  ∧ (∀ g l,
       Resolver.dependencies (resolver s g) = Some l → name ∈ l →
       calls_of g (calls (register (VStr name) VNull s).1) = calls_of g (calls s))
  ∧ (∀ s' g l ds,
       dependencies (this s') !! name = Some VNull →
       Resolver.dependencies (resolver s' g) = Some l → name ∈ l →
       length (gather (dependencies (this s')) l).2 < length l
       ∧ calls_of g (calls (inject ds s').1) = calls_of g (calls s')).
Proof.
  rewrite register_eq. simpl is_nonempty_string.
  rewrite bool_decide_eq_true_2 by done. cbn [is_undefined fst snd ToString].
  split_and!.
  - intros _. split; [done|].
    rewrite dispatch_dependencies, registered_dependencies. apply lookup_insert_eq.
  - intros g l Hl Hin. rewrite <- !state_of_calls.
    rewrite dispatch_idle; [done|]. right.
    unfold is_ready. rewrite registered_resolver_dependencies, Hl.
    apply not_true_is_false. intros Hr.
    apply (ready_elem_of _ _ name) in Hr; [|done].
    rewrite registered_dependencies, get_dependency_insert, decide_True in Hr; done.
  - intros s' g l ds Hnull Hl Hin.
    assert (is_nullish (get_dependency (dependencies (this s')) name) = true) as Hn.
    { unfold get_dependency. by rewrite Hnull. }
    split.
    + rewrite gather_args.
      rewrite <- (length_fmap (get_dependency (dependencies (this s'))) l).
      apply (length_filter_lt _ _ (get_dependency (dependencies (this s')) name)).
      * apply list_elem_of_fmap. eauto.
      * by rewrite Hn.
    + rewrite inject_eq. destruct (is_nonempty_array ds); [|done]. cbn [fst].
      rewrite <- !state_of_calls. rewrite dispatch_idle; [done|]. right.
      unfold is_ready. rewrite Hl. apply not_true_is_false. intros Hr.
      apply (ready_elem_of _ _ name) in Hr; [|done]. congruence.
Qed.

Lemma C3_witness :
  let s := run [Resolve (names ["a"; "b"]) (VFun example_f);
                Register (VStr "b") (VNum 2)] initial in
  ("a" ≠ "" ∧ plain "a"
   ∧ Resolver.dependencies (resolver s example_f) = Some ["a"; "b"])
  ∧ (register (VStr "a") VNull s).2 = inr tt
  ∧ dependencies (this (register (VStr "a") VNull s).1) !! "a" = Some VNull
  ∧ calls_of example_f (calls (register (VStr "a") VNull s).1)
    = calls_of example_f (calls s).
Proof.
  cbv zeta.
  set (s := run [Resolve (names ["a"; "b"]) (VFun example_f);
                 Register (VStr "b") (VNum 2)] initial).
  assert ("a" ≠ "") as Hname by done.
  assert (Resolver.dependencies (resolver s example_f) = Some ["a"; "b"]) as Hl
    by (by vm_compute).
  assert ("a" ∈ ["a"; "b"]) as Hin by constructor.
  assert (plain "a") as Hplain by by_evaluation.
  destruct (C3_null_is_stored_and_never_ready s "a" Hname) as (H12 & H3 & _).
  destruct (H12 Hplain) as [H1 H2].
  exact (conj (conj Hname (conj Hplain Hl))
              (conj H1 (conj H2 (H3 example_f _ Hl Hin)))).
Defined.


(** ** Registering an unchanged value *)

(** C4.  When a resolver is flagged as resolved, registering a name (a
    non-empty string that is no member of [Object.prototype]) again with a
    value whose serialised form equals that of the stored value (both being
    [safe]) succeeds, makes no call to the resolver and leaves its flag
    set. *)
Theorem C4_unchanged_value_is_idempotent s name v g
    (Hname : name ≠ "")
    (Hplain : plain name)
    (Hv : is_undefined v = false)
    (Hsafe : safe v = true)
    (Hsafe_old : safe (get_dependency (dependencies (this s)) name) = true)
    (Hflag : Resolver.is_resolved (resolver s g) = true)
    (Hsame : JSON_stringify v
             = JSON_stringify (get_dependency (dependencies (this s)) name)) :
  (register (VStr name) v s).2 = inr tt
  ∧ calls_of g (calls (register (VStr name) v s).1) = calls_of g (calls s)
  ∧ Resolver.is_resolved (resolver (register (VStr name) v s).1 g) = true.
Proof.
  rewrite register_eq. simpl is_nonempty_string.
  rewrite bool_decide_eq_true_2 by done. rewrite Hv. cbn [fst snd ToString].
  assert (resolver (registered name v s) g = resolver s g) as Hres.
  { rewrite registered_resolver. rewrite decide_False; [done|]. intros [_ ?]. done. }
  assert (state_of g (dispatch (registered name v s) [name])
          = state_of g (registered name v s)) as Hst.
  { apply dispatch_idle. left. by rewrite Hres. }
  split_and!.
  - done.
  - by rewrite <- !state_of_calls, Hst.
  - by rewrite <- state_of_resolver, Hst, state_of_resolver, Hres.
Qed.

Lemma C4_witness :
  let s := run [Resolve (names ["a"; "b"]) (VFun example_f);
                Register (VStr "a") (VNum 1);
                Register (VStr "b") (VNum 2)] initial in
  (plain "a" ∧ safe (VNum 1) = true
   ∧ safe (get_dependency (dependencies (this s)) "a") = true
   ∧ Resolver.is_resolved (resolver s example_f) = true)
  ∧ length (calls_of example_f (calls s)) = 1
  ∧ calls_of example_f (calls (register (VStr "a") (VNum 1) s).1)
    = calls_of example_f (calls s)
  ∧ Resolver.is_resolved (resolver (register (VStr "a") (VNum 1) s).1 example_f) = true.
Proof.
  cbv zeta.
  assert ("a" ≠ "") as H1 by done.
  assert (plain "a") as H2 by by_evaluation.
  split; [split_and!; [exact H2 | by vm_compute..]|]. split; [by vm_compute|].
  refine (proj2 (C4_unchanged_value_is_idempotent _ "a" (VNum 1) example_f H1 H2
                   _ _ _ _ _)).
  - reflexivity.
  - by vm_compute.
  - by vm_compute.
  - by vm_compute.
  - by vm_compute.
Defined.

(** ** A resolver attached to two names *)

(** C7.  A resolver pending on two names [A] and [B], not flagged and with
    all its values present, is called by the dispatch on [A]; that dispatch
    takes it off the pending list of [A] and changes no other pending list,
    so it stays on the list of [B], now flagged.  The dispatch on [B] that
    follows takes it off that list too and does not call it. *)
Theorem C7_two_phase_removal s A B g l
    (HAB : A ≠ B)
    (HA : g ∈ pending s A)
    (HB : g ∈ pending s B)
    (Hflag : Resolver.is_resolved (resolver s g) = false)
    (Hl : Resolver.dependencies (resolver s g) = Some l)
    (Hready : ready (dependencies (this s)) l = true) :
  let s1 := (inject (names [A]) s).1 in
  let s2 := (inject (names [B]) s1).1 in
  calls_of g (calls s1) = calls_of g (calls s) ++ [call_of (dependencies (this s)) g l]
  ∧ (g ∉ pending s1 A)
  ∧ (∀ name, name ≠ A → dependants (this s1) !! name = dependants (this s) !! name)
  ∧ (g ∈ pending s1 B)
  ∧ Resolver.is_resolved (resolver s1 g) = true
  ∧ (g ∉ pending s2 B)
  ∧ calls_of g (calls s2) = calls_of g (calls s1).
Proof.
  cbv zeta. rewrite !inject_eq, !is_nonempty_array_names.
  rewrite !bool_decide_eq_true_2 by done. cbn [fst]. rewrite !property_names_names.
  assert (A ∈ [A]) as HinA by set_solver.
  assert (B ∈ [B]) as HinB by set_solver.
  pose proof (dispatch_fires [A] s g A l HinA HA Hflag Hl Hready) as Hfire.
  assert (Resolver.is_resolved (resolver (dispatch s [A]) g) = true) as Hflag1.
  { by rewrite <- state_of_resolver, Hfire. }
  assert (state_of g (dispatch (dispatch s [A]) [B]) = state_of g (dispatch s [A]))
    as Hidle by (apply dispatch_idle; by left).
  split_and!.
  - by rewrite <- state_of_calls, Hfire.
  - rewrite dispatch_elem_of by done. unfold settled. rewrite Hflag. unfold is_ready.
    rewrite Hl, Hready. by intros [_ ?].
  - intros name Hne. apply dispatch_dependants_notin. set_solver.
  - rewrite dispatch_pending_notin; [done | set_solver].
  - done.
  - rewrite dispatch_elem_of by done. unfold settled. rewrite Hflag1. by intros [_ ?].
  - by rewrite <- !state_of_calls, Hidle.
Qed.

Lemma C7_witness :
  let s := attached ["a"; "b"] example_f
             (run [Register (VStr "a") (VNum 1); Register (VStr "b") (VNum 2)] initial) in
  let s1 := (inject (names ["a"]) s).1 in
  let s2 := (inject (names ["b"]) s1).1 in
  (pending s "a" = [example_f] ∧ pending s "b" = [example_f]
   ∧ Resolver.is_resolved (resolver s example_f) = false)
  ∧ (example_f ∉ pending s1 "a")
  ∧ (example_f ∈ pending s1 "b")
  ∧ (example_f ∉ pending s2 "b")
  ∧ calls_of example_f (calls s2) = calls_of example_f (calls s1).
Proof.
  cbv zeta.
  set (s := attached ["a"; "b"] example_f
              (run [Register (VStr "a") (VNum 1); Register (VStr "b") (VNum 2)] initial)).
  assert ("a" ≠ "b") as HAB by done.
  assert (pending s "a" = [example_f]) as HA by (by vm_compute).
  assert (pending s "b" = [example_f]) as HB by (by vm_compute).
  assert (example_f ∈ pending s "a") as HA' by (rewrite HA; set_solver).
  assert (example_f ∈ pending s "b") as HB' by (rewrite HB; set_solver).
  assert (Resolver.is_resolved (resolver s example_f) = false) as Hflag
    by (by vm_compute).
  assert (Resolver.dependencies (resolver s example_f) = Some ["a"; "b"]) as Hl
    by (by vm_compute).
  assert (ready (dependencies (this s)) ["a"; "b"] = true) as Hready
    by (by vm_compute).
  destruct (C7_two_phase_removal s "a" "b" example_f ["a"; "b"]
              HAB HA' HB' Hflag Hl Hready) as (_ & H1 & _ & H2 & _ & H3 & H4).
  exact (conj (conj HA (conj HB Hflag)) (conj H1 (conj H2 (conj H3 H4)))).
Defined.

(** ** Resolving when the values are already there *)

Lemma attached_fires ns f s d :
  d ∈ ns →
  Resolver.is_resolved (resolver s f) = false →
  ready (dependencies (this s)) ns = true →
  state_of f (dispatch (attached ns f s) ns)
  = (Resolver.Make (Some ns) true,
     calls_of f (calls s) ++ [call_of (dependencies (this s)) f ns]).
Proof.
  intros Hd Hflag Hready. unfold attached.
  assert (resolver (foldl (attach ns f) s ns) f
          = Resolver.set_dependencies ns (resolver s f)) as Hres.
  { rewrite attach_fold_resolver, decide_True; [done|].
    split; [done|]. intros ->. set_solver. }
  rewrite (dispatch_fires ns _ f d ns Hd).
  - rewrite Hres, attach_fold_dependencies, attach_fold_calls.
    unfold Resolver.set_is_resolved, Resolver.set_dependencies. done.
  - apply attach_fold_elem_of. by right.
  - rewrite Hres. done.
  - by rewrite Hres.
  - by rewrite attach_fold_dependencies.
Qed.

(** C5, as the code has it.  When every name of a non-empty list (none of
    them a member of [Object.prototype]) has a registered value that is
    neither [null] nor [undefined], and the function is not flagged as
    resolved, [resolve(names, f)] returns having called [f] exactly once: the
    arguments are the registered values in the order of [names], and the
    receiver maps each of the names, and nothing else, to its value. *)
Theorem C5_resolve_calls_at_once s ns f
    (Hns : ns ≠ [])
    (Hplain : Forall plain ns)
    (Hvalues : Forall (λ name, ∃ v, dependencies (this s) !! name = Some v
                                    ∧ is_nullish v = false) ns)
    (Hflag : Resolver.is_resolved (resolver s f) = false) :
  (resolve (names ns) (VFun f) s).2 = inr tt
  ∧ ∃ c, calls_of f (calls (resolve (names ns) (VFun f) s).1)
         = calls_of f (calls s) ++ [c]
       ∧ callee c = f
       ∧ Forall2 (λ name v, dependencies (this s) !! name = Some v) ns (arguments c)
       ∧ ∀ name, this_arg c !! name
                 = if decide (name ∈ ns) then dependencies (this s) !! name else None.
Proof.
  rewrite resolve_eq, is_nonempty_array_names, bool_decide_eq_true_2 by done.
  cbn [fst snd]. rewrite property_names_names. split; [done|].
  assert (∀ name, name ∈ ns →
            dependencies (this s) !! name
            = Some (get_dependency (dependencies (this s)) name)) as Hget.
  { intros name Hin. rewrite Forall_forall in Hvalues.
    destruct (Hvalues name Hin) as (v & Hv & _). unfold get_dependency. by rewrite Hv. }
  assert (ready (dependencies (this s)) ns = true) as Hready.
  { apply ready_Forall. eapply Forall_impl; [exact Hvalues|].
    intros name (v & Hv & Hnn). unfold get_dependency. by rewrite Hv. }
  destruct ns as [|d ns']; [done|].
  assert (d ∈ d :: ns') as Hd by set_solver.
  exists (call_of (dependencies (this s)) f (d :: ns')). split_and!.
  - by rewrite <- state_of_calls, (attached_fires _ f s d Hd Hflag Hready).
  - done.
  - unfold call_of. cbn [arguments]. apply Forall2_fmap_r, Forall_Forall2_diag.
    apply Forall_forall. intros name Hin. by apply Hget.
  - intros name. unfold call_of. cbn [this_arg]. rewrite context_of_lookup.
    case_decide; [|done]. symmetry. by apply Hget.
Qed.

Lemma C5_witness :
  let s := run [Register (VStr "a") (VNum 1); Register (VStr "b") (VNum 2)] initial in
  (Forall plain ["a"; "b"]
   ∧ dependencies (this s) !! "a" = Some (VNum 1)
   ∧ dependencies (this s) !! "b" = Some (VNum 2))
  ∧ ∃ c, calls_of example_f (calls (resolve (names ["a"; "b"]) (VFun example_f) s).1)
         = calls_of example_f (calls s) ++ [c]
       ∧ Forall2 (λ name v, dependencies (this s) !! name = Some v)
                 ["a"; "b"] (arguments c).
Proof.
  cbv zeta.
  set (s := run [Register (VStr "a") (VNum 1); Register (VStr "b") (VNum 2)] initial).
  assert (dependencies (this s) !! "a" = Some (VNum 1)) as Ha by (by vm_compute).
  assert (dependencies (this s) !! "b" = Some (VNum 2)) as Hb by (by vm_compute).
  assert (["a"; "b"] ≠ @nil string) as Hns by done.
  assert (Forall plain ["a"; "b"]) as Hplain by by_evaluation.
  assert (Forall (λ name, ∃ v, dependencies (this s) !! name = Some v
                               ∧ is_nullish v = false) ["a"; "b"]) as Hvalues.
  { repeat constructor; eexists; (split; [eassumption | reflexivity]). }
  assert (Resolver.is_resolved (resolver s example_f) = false) as Hflag
    by (by vm_compute).
  destruct (C5_resolve_calls_at_once s ["a"; "b"] example_f Hns Hplain Hvalues Hflag)
    as (_ & c & Hc & _ & Hargs & _).
  exact (conj (conj Hplain (conj Ha Hb)) (ex_intro _ c (conj Hc Hargs))).
Defined.

(** A registered value for every name is not enough when one of them is
    [null]: after [register("a", null)] the call
    [resolve(["a"], f)] returns normally and has called nothing. *)
Lemma C5_counterexample :
  dependencies (this (register (VStr "a") VNull initial).1) !! "a" = Some VNull
  ∧ (resolve (names ["a"]) (VFun example_f) (register (VStr "a") VNull initial).1).2
    = inr tt
  ∧ calls (resolve (names ["a"]) (VFun example_f)
             (register (VStr "a") VNull initial).1).1 = [].
Proof. split_and!; by vm_compute. Qed.


(** ** The first registration of a name *)

Section waiting.
Variables (name : string) (g : func).

Lemma waiting_not_ready s :
  waiting name g s → is_ready (dependencies (this s)) (resolver s g) = false.
Proof.
  intros (Hnone & _ & Hl & _). unfold is_ready. rewrite Hl. simpl.
  unfold get_dependency. by rewrite Hnone.
Qed.

Lemma waiting_dispatch s ns :
  waiting name g s →
  waiting name g (dispatch s ns)
  ∧ calls_of g (calls (dispatch s ns)) = calls_of g (calls s).
Proof.
  intros Hw. pose proof (waiting_not_ready s Hw) as Hnr.
  destruct Hw as (Hnone & Hin & Hl & Hflag).
  assert (state_of g (dispatch s ns) = state_of g s) as Hst
    by (apply dispatch_idle; by right).
  assert (resolver (dispatch s ns) g = resolver s g) as Hres
    by (by rewrite <- !state_of_resolver, Hst).
  split; [|by rewrite <- !state_of_calls, Hst].
  unfold waiting. rewrite dispatch_dependencies, Hres. split_and!; try done.
  destruct (decide (name ∈ ns)) as [Hd|Hd].
  - apply dispatch_elem_of; [done|]. split; [done|].
    unfold settled. by rewrite Hflag, Hnr.
  - by rewrite dispatch_pending_notin.
Qed.

Lemma waiting_exec s o :
  waiting name g s → ¬ registers name o → ¬ resolves g o →
  waiting name g (exec o s).1
  ∧ calls_of g (calls (exec o s).1) = calls_of g (calls s).
Proof.
  intros Hw Hreg Hres. destruct o as [k v | ds r | ds]; cbn [exec].
  - rewrite register_eq. destruct (is_nonempty_string k) eqn:Hk; [|done].
    destruct (is_undefined v); [done|]. cbn [fst].
    apply is_nonempty_string_spec in Hk as (key & -> & Hkey). cbn [ToString].
    assert (key ≠ name) as Hne by (intros ->; apply Hreg; by eexists).
    assert (waiting name g (registered key v s)) as Hw'.
    { destruct Hw as (Hnone & Hin & Hl & Hflag). unfold waiting.
      rewrite registered_dependencies, registered_pending,
        registered_resolver_dependencies.
      split_and!; try done.
      - by rewrite lookup_insert_ne.
      - rewrite registered_resolver. by case_decide. }
    apply (waiting_dispatch _ [key]) in Hw' as [? Hc]. by rewrite Hc.
  - rewrite resolve_eq. destruct (is_nonempty_array ds); [|done].
    destruct r as [| | | | | | |h]; try done. cbn [fst].
    assert (h ≠ g) as Hne by (intros ->; apply Hres; by eexists).
    assert (waiting name g (attached (property_names ds) h s)) as Hw'.
    { destruct Hw as (Hnone & Hin & Hl & Hflag). unfold waiting, attached.
      rewrite attach_fold_dependencies, attach_fold_resolver.
      rewrite decide_False by tauto. split_and!; try done.
      apply attach_fold_elem_of. by left. }
    apply (waiting_dispatch _ (property_names ds)) in Hw' as [? Hc].
    split; [done|]. rewrite Hc. unfold attached. by rewrite attach_fold_calls.
  - rewrite inject_eq. destruct (is_nonempty_array ds); [|done]. cbn [fst].
    by apply waiting_dispatch.
Qed.

Lemma run_cons o ops s : run (o :: ops) s = run ops (exec o s).1.
Proof. done. Qed.

Lemma waiting_run ops s :
  waiting name g s →
  Forall (λ o, ¬ registers name o ∧ ¬ resolves g o) ops →
  waiting name g (run ops s)
  ∧ calls_of g (calls (run ops s)) = calls_of g (calls s).
Proof.
  revert s. induction ops as [|o ops IH]; intros s Hw Hops; [done|].
  apply Forall_cons in Hops as [[Hreg Hres] Hops].
  destruct (waiting_exec s o Hw Hreg Hres) as [Hw' Hc].
  destruct (IH _ Hw' Hops) as [Hw'' Hc'].
  rewrite run_cons. split; [done | congruence].
Qed.

(** [resolve([name], g)] on a name without a value leaves [g] waiting. *)
Lemma resolve_waiting s :
  dependencies (this s) !! name = None →
  Resolver.is_resolved (resolver s g) = false →
  waiting name g (resolve (names [name]) (VFun g) s).1
  ∧ calls_of g (calls (resolve (names [name]) (VFun g) s).1) = calls_of g (calls s).
Proof.
  intros Hnone Hflag.
  rewrite resolve_eq, is_nonempty_array_names, bool_decide_eq_true_2 by done.
  cbn [fst]. rewrite property_names_names.
  assert (waiting name g (attached [name] g s)) as Hw.
  { unfold waiting, attached. rewrite attach_fold_dependencies, attach_fold_resolver.
    rewrite decide_True by done. split_and!; try done.
    apply attach_fold_elem_of. right. set_solver. }
  apply (waiting_dispatch _ [name]) in Hw as [? Hc].
  split; [done|]. rewrite Hc. unfold attached. by rewrite attach_fold_calls.
Qed.

(** Registering a value for the name calls the waiting resolver once. *)
Lemma waiting_register s v :
  waiting name g s → name ≠ "" → is_nullish v = false →
  (register (VStr name) v s).2 = inr tt
  ∧ calls_of g (calls (register (VStr name) v s).1)
    = calls_of g (calls s)
      ++ [{| callee := g; this_arg := {[name := v]}; arguments := [v] |}].
Proof.
  intros (Hnone & Hin & Hl & Hflag) Hname Hv. rewrite register_eq.
  simpl is_nonempty_string. rewrite bool_decide_eq_true_2 by done.
  assert (is_undefined v = false) as -> by (by destruct v).
  cbn [fst snd ToString]. split; [done|].
  rewrite <- state_of_calls.
  rewrite (dispatch_fires [name] _ g name [name]).
  - cbn [snd]. unfold call_of, context_of. cbn [foldl fmap list_fmap].
    rewrite registered_dependencies, get_dependency_insert, decide_True by done.
    by rewrite insert_empty.
  - set_solver.
  - by rewrite registered_pending.
  - rewrite registered_resolver. by case_decide.
  - by rewrite registered_resolver_dependencies.
  - rewrite registered_dependencies. simpl.
    rewrite get_dependency_insert, decide_True by done. by rewrite Hv.
Qed.
End waiting.

(** C1, as the code has it.  Let [name] (no member of [Object.prototype])
    have no value yet and [g] not be flagged.  After [resolve([name], g)] and
    any further calls, on such names and safe values, that neither register
    [name] nor resolve [g] again, [g] has not been called; then
    [register(name, v)], for a value [v] that is neither [null] nor
    [undefined], returns having called [g] exactly once, with the single
    argument [v] and the receiver [{name: v}]. *)
Theorem C1_first_registration_calls_once s name v g mid
    (Hname : name ≠ "")
    (Hplain : plain name)
    (Hplain_mid : Forall exact_op mid)
    (Hv : is_nullish v = false)
    (Hfresh : dependencies (this s) !! name = None)
    (Hflag : Resolver.is_resolved (resolver s g) = false)
    (Hmid : Forall (λ o, ¬ registers name o ∧ ¬ resolves g o) mid) :
  let s1 := run (Resolve (names [name]) (VFun g) :: mid) s in
  calls_of g (calls s1) = calls_of g (calls s)
  ∧ (register (VStr name) v s1).2 = inr tt
  ∧ calls_of g (calls (register (VStr name) v s1).1)
    = calls_of g (calls s1)
      ++ [{| callee := g; this_arg := {[name := v]}; arguments := [v] |}].
Proof.
  cbv zeta. rewrite run_cons. cbn [exec].
  destruct (resolve_waiting name g s Hfresh Hflag) as [Hw Hc].
  destruct (waiting_run name g mid _ Hw Hmid) as [Hw' Hc'].
  destruct (waiting_register name g _ v Hw' Hname Hv) as [Hok Hcall].
  split_and!; [congruence | done | done].
Qed.

Lemma C1_witness :
  let s1 := run [Resolve (names ["x"]) (VFun example_g);
                 Register (VStr "y") (VNum 7);
                 Resolve (names ["x"; "y"]) (VFun example_f)] initial in
  (plain "x"
   ∧ dependencies (this initial) !! "x" = None
   ∧ Resolver.is_resolved (resolver initial example_g) = false)
  ∧ calls_of example_g (calls s1) = calls_of example_g (calls initial)
  ∧ calls_of example_g (calls (register (VStr "x") (VStr "v1") s1).1)
    = calls_of example_g (calls s1)
      ++ [{| callee := example_g;
             this_arg := {["x" := VStr "v1"]};
             arguments := [VStr "v1"] |}].
Proof.
  cbv zeta.
  assert ("x" ≠ "") as Hname by done.
  assert (is_nullish (VStr "v1") = false) as Hv by done.
  assert (dependencies (this initial) !! "x" = None) as Hfresh by done.
  assert (Resolver.is_resolved (resolver initial example_g) = false) as Hflag by done.
  assert (Forall (λ o, ¬ registers "x" o ∧ ¬ resolves example_g o)
            [Register (VStr "y") (VNum 7);
             Resolve (names ["x"; "y"]) (VFun example_f)]) as Hmid.
  { repeat constructor; by intros [? ?]. }
  assert (plain "x") as Hplain by by_evaluation.
  assert (Forall exact_op [Register (VStr "y") (VNum 7);
                           Resolve (names ["x"; "y"]) (VFun example_f)]) as Hpm
    by by_evaluation.
  destruct (C1_first_registration_calls_once initial "x" (VStr "v1") example_g _
              Hname Hplain Hpm Hv Hfresh Hflag Hmid) as (H1 & _ & H2).
  exact (conj (conj Hplain (conj Hfresh Hflag)) (conj H1 H2)).
Defined.

(** The same does not hold of every value [register] accepts, [null] being
    one:
    [register] accepts it, and the resolver waiting for the name is not
    called. *)
Lemma C1_counterexample :
  dependencies (this (run [Resolve (names ["n"]) (VFun example_g)] initial)) !! "n"
  = None
  ∧ (register (VStr "n") VNull
       (run [Resolve (names ["n"]) (VFun example_g)] initial)).2 = inr tt
  ∧ calls (register (VStr "n") VNull
             (run [Resolve (names ["n"]) (VFun example_g)] initial)).1 = [].
Proof. split_and!; by vm_compute. Qed.


(** ** A resolver of two names *)

Lemma run_snoc ops o s : run (ops ++ [o]) s = (exec o (run ops s)).1.
Proof. unfold run. by rewrite foldl_snoc. Qed.

Lemma run_app ops1 ops2 s : run (ops1 ++ ops2) s = run ops2 (run ops1 s).
Proof. unfold run. by rewrite foldl_app. Qed.

(** Dispatch either leaves a function as it is, or finds it unflagged with
    all its values, flags it and calls it. *)
Lemma dispatch_cases ns s g :
  state_of g (dispatch s ns) = state_of g s
  ∨ (Resolver.is_resolved (resolver s g) = false
     ∧ is_ready (dependencies (this s)) (resolver s g) = true
     ∧ state_of g (dispatch s ns)
       = (Resolver.set_is_resolved true (resolver s g),
          calls_of g (calls s)
          ++ [call_of (dependencies (this s)) g
                (default [] (Resolver.dependencies (resolver s g)))])).
Proof.
  rewrite dispatch_state. case_decide; [|by left].
  unfold visit. rewrite state_of_resolver, state_of_calls.
  destruct (Resolver.is_resolved (resolver s g)); [by left|].
  destruct (is_ready (dependencies (this s)) (resolver s g)); [by right | by left].
Qed.

Section history.
Variables (A B : string) (f : func).





End history.



(** ** Registering a changed value after the resolver was called *)

(** [register] looks only at the resolvers on the pending list of the
    name: a function that is not there is neither reset nor called. *)
Lemma register_not_pending s name v g :
  g ∉ pending s name →
  state_of g (register (VStr name) v s).1 = state_of g s.
Proof.
  intros Hnot. rewrite register_eq.
  destruct (is_nonempty_string (VStr name)); [|done].
  destruct (is_undefined v); [done|]. cbn [fst ToString].
  rewrite dispatch_state. rewrite decide_False.
  - unfold state_of. rewrite registered_resolver. rewrite decide_False; [done|].
    by intros [? _].
  - rewrite Exists_cons, Exists_nil, registered_pending. tauto.
Qed.

(** The call that satisfies a resolver takes it off the pending list of the
    dispatched name. *)
Lemma register_unlists s name v g :
  Resolver.is_resolved (resolver (register (VStr name) v s).1 g) = true →
  (register (VStr name) v s).2 = inr tt →
  g ∉ pending (register (VStr name) v s).1 name.
Proof.
  rewrite register_eq. destruct (is_nonempty_string (VStr name)); [|done].
  destruct (is_undefined v); [done|]. cbn [fst snd ToString].
  intros Hflag _. rewrite dispatch_elem_of by set_solver. intros [_ Hs].
  rewrite <- (dispatch_settled [name]) in Hs.
  unfold settled in Hs. by rewrite Hflag in Hs.
Qed.

(** C2, at the scenario of the specification: [resolve(["x"], g)], then
    [register("x", "v1")] calls [g] with ["v1"] and takes [g] off the pending
    list of ["x"].  The later [register("x", "v2")], whose value serialises
    differently, finds no resolver to reset, and [g] is not called again.
    Registering ["v1"] again does not call [g] either. *)
Example C2_changed_value_is_not_redelivered :
  let s1 := run [Resolve (names ["x"]) (VFun example_g);
                 Register (VStr "x") (VStr "v1")] initial in
  (observe <$> calls s1) = [(example_g, [("x", VStr "v1")], [VStr "v1"])]
  ∧ pending s1 "x" = []
  ∧ bool_decide (JSON_stringify (VStr "v2")
                 ≠ JSON_stringify (get_dependency (dependencies (this s1)) "x")) = true
  ∧ (register (VStr "x") (VStr "v2") s1).2 = inr tt
  ∧ calls (register (VStr "x") (VStr "v2") s1).1 = calls s1
  ∧ Resolver.is_resolved (resolver (register (VStr "x") (VStr "v2") s1).1 example_g)
    = true
  ∧ calls (register (VStr "x") (VStr "v1") s1).1 = calls s1.
Proof. cbv zeta. split_and!; by vm_compute. Qed.

(** A function that is already flagged when it is passed to [resolve] is
    only taken off the pending lists: it is not called, neither by
    [resolve] nor by a later [register] of the name. *)
Example flagged_function_is_dropped :
  let s := run [Resolve (names ["m"]) (VFun example_g);
                Register (VStr "m") (VNum 1);
                Resolve (names ["n"]) (VFun example_g)] initial in
  Resolver.is_resolved (resolver s example_g) = true
  ∧ pending s "n" = []
  ∧ calls (register (VStr "n") (VNum 5) s).1 = calls s.
Proof. cbv zeta. split_and!; by vm_compute. Qed.


(** * Further properties of the three methods *)

(** ** Validation in [inject] *)

(** X1.  [inject(dependencies)] throws the assertion error exactly when its
    argument is not a non-empty array, and then leaves the store as it
    was. *)
Theorem inject_throws_iff ds s :
  (throws (inject ds s) ↔ ¬ ∃ x l, ds = VArr (x :: l))
  ∧ (throws (inject ds s) → (inject ds s).1 = s).
Proof.
  rewrite <- is_nonempty_array_spec, inject_eq. unfold throws.
  destruct (is_nonempty_array ds); cbn [fst snd].
  - split; [|by intros [? ?]]. split; [by intros [? ?] | by intros []].
  - split; [|done]. split; [by intros _ ? | eauto].
Qed.

(** ** What a dispatch leaves on the pending lists *)

Lemma filter_ext_elem_of {A} (P Q : A → Prop)
    `{!∀ x, Decision (P x)} `{!∀ x, Decision (Q x)} (l : list A) :
  (∀ x, x ∈ l → (P x ↔ Q x)) → filter P l = filter Q l.
Proof.
  induction l as [|x l IH]; intros Hext; [done|].
  rewrite !filter_cons. rewrite IH by (intros y Hy; apply Hext; by right).
  destruct (Hext x) as [H1 H2]; [by left|].
  repeat case_decide; try done; tauto.
Qed.

Lemma filter_all {A} (P : A → Prop) `{!∀ x, Decision (P x)} (l : list A) :
  (∀ x, x ∈ l → P x) → filter P l = l.
Proof.
  induction l as [|x l IH]; intros Hall; [done|].
  rewrite filter_cons_True by (apply Hall; by left).
  by rewrite IH by (intros y Hy; apply Hall; by right).
Qed.

Lemma filter_none {A} (P : A → Prop) `{!∀ x, Decision (P x)} (l : list A) :
  (∀ x, x ∈ l → ¬ P x) → filter P l = [].
Proof.
  induction l as [|x l IH]; intros Hnone; [done|].
  rewrite filter_cons_False by (apply Hnone; by left).
  by rewrite IH by (intros y Hy; apply Hnone; by right).
Qed.

Lemma inject_dependency_pending_eq s d :
  pending (inject_dependency s d) d
  = filter (λ g, settled (dependencies (this s)) (resolver s g) = false) (pending s d).
Proof.
  rewrite inject_dependency_eq, pending_set_dependants, decide_True by done.
  unfold without. apply filter_ext_elem_of. intros g Hg.
  destruct (scan_spec (dependencies (this s)) g (pending s d)
              (functions s, calls s, [])) as [_ Hm].
  fold (scanned s d) in Hm. rewrite Hm. cbn [fst snd]. unfold resolver.
  destruct (settled (dependencies (this s)) (resolver_of (functions s) g)).
  - split; [intros Hn; exfalso; apply Hn; by right | done].
  - split; [done | intros _ [Hnil | [_ ?]]; [by apply not_elem_of_nil in Hnil | done]].
Qed.

Lemma dispatch_pending_eq ns s d :
  d ∈ ns →
  pending (dispatch s ns) d
  = filter (λ g, settled (dependencies (this s)) (resolver s g) = false) (pending s d).
Proof.
  revert s. induction ns as [|d' ns IH]; intros s Hd; [by apply not_elem_of_nil in Hd|].
  rewrite dispatch_cons.
  destruct (decide (d ∈ ns)) as [Hin|Hin].
  - rewrite IH by done.
    rewrite (filter_ext_elem_of _
               (λ g, settled (dependencies (this s)) (resolver s g) = false)).
    2:{ intros g _.
        by rewrite inject_dependency_dependencies, inject_dependency_settled. }
    destruct (decide (d' = d)) as [->|Hne].
    + rewrite inject_dependency_pending_eq, list_filter_filter.
      apply filter_ext_elem_of. tauto.
    + by rewrite inject_dependency_pending_ne.
  - assert (d' = d) as ->.
    { apply elem_of_cons in Hd as [->|?]; done. }
    rewrite dispatch_pending_notin by done. apply inject_dependency_pending_eq.
Qed.

(** X2.  Let the names passed to [inject] (a safe value) and the names the
    store's resolvers ask for be no members of [Object.prototype].  After
    [inject(dependencies)] returns, the pending list of every dispatched
    name is what it was without the resolvers that were flagged or had all
    their values: what stays is exactly the resolvers still lacking a value,
    in their old order, and none of them is flagged. *)
Theorem inject_prunes_dispatched_lists ds s name
    (Hplain : Forall plain (property_names ds))
    (Hsafe : safe ds = true)
    (Hstore : plain_store s)
    (Hname : name ∈ property_names ds) :
  pending (inject ds s).1 name
  = filter (λ g, settled (dependencies (this s)) (resolver s g) = false)
           (pending s name)
  ∧ ∀ g, g ∈ pending (inject ds s).1 name →
         Resolver.is_resolved (resolver (inject ds s).1 g) = false
         ∧ is_ready (dependencies (this (inject ds s).1)) (resolver (inject ds s).1 g)
           = false.
Proof.
  rewrite inject_eq. destruct (is_nonempty_array ds) eqn:Hds.
  - cbn [fst]. rewrite dispatch_pending_eq by done. split; [done|].
    intros g [Hs _]%list_elem_of_filter.
    rewrite <- (dispatch_settled (property_names ds)) in Hs.
    rewrite dispatch_dependencies. unfold settled in Hs.
    by apply orb_false_iff in Hs.
  - destruct ds as [| | | | |[|x l]| |]; try done; by apply not_elem_of_nil in Hname.
Qed.

Lemma inject_prunes_witness :
  let s := attached ["a"; "b"] example_f
             (attached ["a"; "c"] example_g
                (run [Register (VStr "a") (VNum 1); Register (VStr "b") (VNum 2)]
                     initial)) in
  (Forall plain (property_names (names ["a"])) ∧ safe (names ["a"]) = true
   ∧ plain_store s)
  ∧ pending s "a" = [example_g; example_f]
  ∧ pending (inject (names ["a"]) s).1 "a" = [example_g].
Proof.
  cbv zeta.
  assert ("a" ∈ property_names (names ["a"])) as Hname by (by constructor).
  assert (Forall plain (property_names (names ["a"]))) as Hplain by by_evaluation.
  assert (plain_store
            (attached ["a"; "b"] example_f
               (attached ["a"; "c"] example_g
                  (run [Register (VStr "a") (VNum 1); Register (VStr "b") (VNum 2)]
                       initial)))) as Hstore by by_evaluation.
  assert (safe (names ["a"]) = true) as Hsafe by (by vm_compute).
  split; [exact (conj Hplain (conj Hsafe Hstore))|].
  split; [by vm_compute|].
  rewrite (proj1 (inject_prunes_dispatched_lists (names ["a"]) _ "a"
                    Hplain Hsafe Hstore Hname)).
  by vm_compute.
Defined.

(** ** The calls of one dispatch, in order *)

Lemma scan_calls deps l fs cs res :
  NoDup l →
  (foldl (inject_resolver deps) (fs, cs, res) l).1.2
  = cs ++ ((λ g, call_of deps g (default [] (Resolver.dependencies (resolver_of fs g))))
           <$> filter (λ g, fires deps (resolver_of fs g) = true) l).
Proof.
  revert fs cs res. induction l as [|a l IH]; intros fs cs res Hnd.
  - cbn. by rewrite app_nil_r.
  - apply NoDup_cons in Hnd as [Ha Hnd]. cbn [foldl].
    rewrite inject_resolver_eq. cbv zeta.
    destruct (Resolver.is_resolved (resolver_of fs a)) eqn:Hflag.
    { rewrite filter_cons_False by (unfold fires; by rewrite Hflag). by apply IH. }
    destruct (is_ready deps (resolver_of fs a)) eqn:Hr.
    2:{ rewrite filter_cons_False by (unfold fires; by rewrite Hflag, Hr).
        by apply IH. }
    rewrite filter_cons_True by (unfold fires; by rewrite Hflag, Hr).
    rewrite IH by done.
    rewrite fmap_cons, <- app_assoc. cbn [app]. do 2 f_equal.
    assert (∀ g, g ∈ l →
              resolver_of (<[a := Resolver.set_is_resolved true (resolver_of fs a)]> fs) g
              = resolver_of fs g) as Hsame.
    { intros g Hg. rewrite resolver_of_insert, decide_False; [done|].
      by intros ->. }
    rewrite (filter_ext_elem_of _ (λ g, fires deps (resolver_of fs g) = true)).
    2:{ intros g Hg. by rewrite Hsame. }
    apply Forall_fmap_ext, Forall_forall. intros g [_ Hg]%list_elem_of_filter.
    by rewrite Hsame.
Qed.

(** X3.  Let [name] and the names the store's resolvers ask for be no
    members of [Object.prototype].  When no function occurs twice on the
    pending list of [name], [inject([name])] calls exactly the resolvers of
    that list that are not flagged and have all their values, once each and
    in the order of the list; each gets the values of its own names. *)
Theorem inject_calls_in_list_order s name
    (Hplain : plain name)
    (Hstore : plain_store s)
    (Hnodup : NoDup (pending s name)) :
  calls (inject (names [name]) s).1
  = calls s
    ++ (call_for s
        <$> filter (λ g, fires (dependencies (this s)) (resolver s g) = true)
                   (pending s name)).
Proof.
  rewrite inject_eq, is_nonempty_array_names, bool_decide_eq_true_2 by done.
  cbn [fst]. rewrite property_names_names.
  change (dispatch s [name]) with (inject_dependency s name).
  rewrite inject_dependency_eq. cbn [calls]. unfold scanned.
  by rewrite scan_calls.
Qed.

Lemma inject_calls_in_list_order_witness :
  let s := attached ["a"; "b"] example_f
             (attached ["a"] example_g
                (run [Register (VStr "a") (VNum 1); Register (VStr "b") (VNum 2)]
                     initial)) in
  (plain "a" ∧ plain_store s)
  ∧ pending s "a" = [example_g; example_f]
  ∧ (observe <$> calls (inject (names ["a"]) s).1)
    = [(example_g, [("a", VNum 1)], [VNum 1]);
       (example_f, [("a", VNum 1); ("b", VNum 2)], [VNum 1; VNum 2])].
Proof.
  cbv zeta.
  assert (NoDup [example_g; example_f]) as Hnd.
  { repeat constructor; [by intros [=]%list_elem_of_singleton | by intros ?%not_elem_of_nil..]. }
  assert (plain "a") as Hplain by by_evaluation.
  assert (plain_store
            (attached ["a"; "b"] example_f
               (attached ["a"] example_g
                  (run [Register (VStr "a") (VNum 1); Register (VStr "b") (VNum 2)]
                       initial)))) as Hstore by by_evaluation.
  split; [exact (conj Hplain Hstore)|].
  split; [by vm_compute|].
  rewrite (inject_calls_in_list_order _ "a" Hplain Hstore); by vm_compute.
Defined.

(** X4.  Several resolvers waiting for the same single name, which is no
    member of [Object.prototype]: when the pending list of [name] holds
    distinct functions, each unflagged and asking for exactly [name], then
    [register(name, v)] with a value other than [null] and [undefined] calls
    every one of them once with the single argument [v], in the order in
    which they were put on the list, and empties the list. *)
Theorem register_calls_all_waiting s name v
    (Hname : name ≠ "")
    (Hplain : plain name)
    (Hv : is_nullish v = false)
    (Hnodup : NoDup (pending s name))
    (Hwait : Forall (λ g, Resolver.dependencies (resolver s g) = Some [name]
                          ∧ Resolver.is_resolved (resolver s g) = false)
                    (pending s name)) :
  (register (VStr name) v s).2 = inr tt
  ∧ calls (register (VStr name) v s).1
    = calls s
      ++ ((λ g, {| callee := g; this_arg := {[name := v]}; arguments := [v] |})
          <$> pending s name)
  ∧ pending (register (VStr name) v s).1 name = [].
Proof.
  rewrite register_eq. simpl is_nonempty_string.
  rewrite bool_decide_eq_true_2 by done.
  assert (is_undefined v = false) as -> by (by destruct v).
  cbn [fst snd ToString]. split; [done|].
  rewrite Forall_forall in Hwait.
  assert (∀ g, g ∈ pending s name →
            resolver (registered name v s) g = Resolver.Make (Some [name]) false) as Hres.
  { intros g Hg. destruct (Hwait g Hg) as [Hl Hflag].
    rewrite registered_resolver. destruct (resolver s g) as [l b]. cbn in *.
    subst. by case_decide. }
  assert (ready (dependencies (this (registered name v s))) [name] = true) as Hready.
  { rewrite registered_dependencies. cbn.
    rewrite get_dependency_insert, decide_True by done. by rewrite Hv. }
  split.
  - change (dispatch (registered name v s) [name])
      with (inject_dependency (registered name v s) name).
    rewrite inject_dependency_eq. cbn [calls]. unfold scanned.
    rewrite scan_calls by (by rewrite registered_pending).
    rewrite registered_pending.
    change (calls (registered name v s)) with (calls s). f_equal.
    rewrite filter_all.
    2:{ intros g Hg. specialize (Hres g Hg). unfold resolver in Hres.
        unfold fires, is_ready. rewrite Hres.
        cbn [Resolver.is_resolved Resolver.dependencies negb andb].
        by rewrite Hready. }
    apply Forall_fmap_ext, Forall_forall. intros g Hg.
    specialize (Hres g Hg). unfold resolver in Hres. rewrite Hres.
    unfold call_of, context_of.
    cbn [default from_option id Resolver.dependencies foldl fmap list_fmap].
    rewrite registered_dependencies, get_dependency_insert, decide_True by done.
    by rewrite insert_empty.
  - rewrite dispatch_pending_eq by (by constructor).
    rewrite registered_pending.
    apply filter_none. intros g Hg. rewrite (Hres g Hg). unfold settled, is_ready.
    cbn [Resolver.is_resolved Resolver.dependencies orb].
    by rewrite Hready.
Qed.

Lemma register_calls_all_waiting_witness :
  let s := run [Resolve (names ["k"]) (VFun example_f);
                Resolve (names ["k"]) (VFun example_g)] initial in
  plain "k"
  ∧ pending s "k" = [example_f; example_g]
  ∧ calls (register (VStr "k") (VStr "v") s).1
    = [{| callee := example_f; this_arg := {["k" := VStr "v"]}; arguments := [VStr "v"] |};
       {| callee := example_g; this_arg := {["k" := VStr "v"]}; arguments := [VStr "v"] |}]
  ∧ pending (register (VStr "k") (VStr "v") s).1 "k" = [].
Proof.
  cbv zeta.
  assert ("k" ≠ "") as Hname by done.
  assert (is_nullish (VStr "v") = false) as Hv by done.
  assert (pending (run [Resolve (names ["k"]) (VFun example_f);
                        Resolve (names ["k"]) (VFun example_g)] initial) "k"
          = [example_f; example_g]) as Hp by (by vm_compute).
  assert (NoDup (pending (run [Resolve (names ["k"]) (VFun example_f);
                               Resolve (names ["k"]) (VFun example_g)] initial) "k"))
    as Hnd.
  { rewrite Hp.
    repeat constructor; [by intros [=]%list_elem_of_singleton | by intros ?%not_elem_of_nil..]. }
  assert (Forall (λ g, Resolver.dependencies
                         (resolver (run [Resolve (names ["k"]) (VFun example_f);
                                         Resolve (names ["k"]) (VFun example_g)] initial) g)
                       = Some ["k"]
                       ∧ Resolver.is_resolved
                           (resolver (run [Resolve (names ["k"]) (VFun example_f);
                                           Resolve (names ["k"]) (VFun example_g)] initial) g)
                         = false)
            (pending (run [Resolve (names ["k"]) (VFun example_f);
                           Resolve (names ["k"]) (VFun example_g)] initial) "k"))
    as Hwait.
  { rewrite Hp. repeat constructor; by vm_compute. }
  assert (plain "k") as Hplain by by_evaluation.
  destruct (register_calls_all_waiting _ "k" (VStr "v") Hname Hplain Hv Hnd Hwait)
    as (_ & Hc & He).
  rewrite Hp in Hc. exact (conj Hplain (conj Hp (conj Hc He))).
Defined.

(** ** Doing it twice *)

Lemma scan_unsettled deps l fs cs res :
  Forall (λ g, settled deps (resolver_of fs g) = false) l →
  foldl (inject_resolver deps) (fs, cs, res) l = (fs, cs, res).
Proof.
  induction 1 as [|g l Hg _ IH]; [done|]. cbn [foldl].
  rewrite inject_resolver_eq. cbv zeta. unfold settled in Hg.
  apply orb_false_iff in Hg as [-> ->]. exact IH.
Qed.

Lemma inject_dependency_fixed s d :
  is_Some (dependants (this s) !! d) →
  Forall (λ g, settled (dependencies (this s)) (resolver s g) = false) (pending s d) →
  inject_dependency s d = s.
Proof.
  intros [l Hl] Hall. rewrite inject_dependency_eq. unfold scanned.
  rewrite scan_unsettled by done. cbn [fst snd].
  assert (pending s d = l) as Hp by (unfold pending, get_dependants; by rewrite Hl).
  assert (without (pending s d) [] = l) as ->.
  { rewrite <- Hp. apply filter_all. intros g _. apply not_elem_of_nil. }
  destruct s as [[dbg deps dts] fs cs]. unfold set_dependants. cbn in *.
  by rewrite insert_id.
Qed.

Lemma dispatch_fixed ns s :
  (∀ d, d ∈ ns →
     is_Some (dependants (this s) !! d)
     ∧ Forall (λ g, settled (dependencies (this s)) (resolver s g) = false)
              (pending s d)) →
  dispatch s ns = s.
Proof.
  induction ns as [|d ns IH]; intros Hall; [done|].
  rewrite dispatch_cons.
  destruct (Hall d) as [Hsome Hun]; [by left|].
  rewrite inject_dependency_fixed by done.
  apply IH. intros d' Hd'. apply Hall. by right.
Qed.

Lemma dispatch_keeps_keys ns s d :
  is_Some (dependants (this s) !! d) →
  is_Some (dependants (this (dispatch s ns)) !! d).
Proof.
  revert s. induction ns as [|d' ns IH]; intros s Hsome; [done|].
  rewrite dispatch_cons. apply IH.
  destruct (decide (d' = d)) as [->|Hne].
  - by rewrite inject_dependency_dependants_eq.
  - by rewrite inject_dependency_dependants_ne.
Qed.

Lemma dispatch_sets_keys ns s d :
  d ∈ ns → is_Some (dependants (this (dispatch s ns)) !! d).
Proof.
  revert s. induction ns as [|d' ns IH]; intros s Hd; [by apply not_elem_of_nil in Hd|].
  rewrite dispatch_cons.
  apply elem_of_cons in Hd as [->|Hd]; [|by apply IH].
  apply dispatch_keeps_keys. by rewrite inject_dependency_dependants_eq.
Qed.

(** A store that comes out of a dispatch is a fixed point of the same
    dispatch. *)
Lemma dispatch_idem ns s : dispatch (dispatch s ns) ns = dispatch s ns.
Proof.
  apply dispatch_fixed. intros d Hd. split; [by apply dispatch_sets_keys|].
  rewrite dispatch_pending_eq by done. apply Forall_forall.
  intros g [Hs _]%list_elem_of_filter.
  by rewrite dispatch_dependencies, dispatch_settled.
Qed.

(** X5.  [inject] is idempotent: calling it a second time with the same
    argument, right after the first, calls no resolver and leaves the whole
    store (both maps, every flag) as the first call left it, with the same
    outcome. *)
Theorem inject_twice ds s : inject ds (inject ds s).1 = inject ds s.
Proof.
  rewrite !inject_eq. destruct (is_nonempty_array ds); cbn [fst]; [|done].
  by rewrite dispatch_idem.
Qed.



(** ** How often, and whom, one call of a method calls *)

Lemma registered_calls key v s : calls (registered key v s) = calls s.
Proof. done. Qed.

Lemma attached_calls ns f s : calls (attached ns f s) = calls s.
Proof. apply attach_fold_calls. Qed.

Lemma dispatch_at_most_once ns s g :
  ∃ cs, calls_of g (calls (dispatch s ns)) = calls_of g (calls s) ++ cs
        ∧ length cs ≤ 1.
Proof.
  destruct (dispatch_cases ns s g) as [Hst | (_ & _ & Hst)];
    rewrite <- (state_of_calls g (dispatch s ns)), Hst.
  - exists []. rewrite app_nil_r. split; [done | simpl; lia].
  - eexists [_]. split; [done | simpl; lia].
Qed.

(** X7.  One call of [register], [resolve] or [inject] calls any given
    resolver at most once, also when the resolver is pending on several of
    the dispatched names or listed twice. *)
Theorem exec_calls_at_most_once o s g :
  ∃ cs, calls_of g (calls (exec o s).1) = calls_of g (calls s) ++ cs
        ∧ length cs ≤ 1.
Proof.
  assert (∃ cs, calls_of g (calls s) = calls_of g (calls s) ++ cs ∧ length cs ≤ 1)
    as Hnone by (exists []; rewrite app_nil_r; split; [done | simpl; lia]).
  destruct o as [k v | ds r | ds]; cbn [exec].
  - rewrite register_eq. destruct (is_nonempty_string k); [|done].
    destruct (is_undefined v); [done|]. cbn [fst].
    rewrite <- (registered_calls (ToString k) v s). apply dispatch_at_most_once.
  - rewrite resolve_eq. destruct (is_nonempty_array ds); [|done].
    destruct r; try done. cbn [fst].
    rewrite <- (attached_calls (property_names ds) f s).
    apply dispatch_at_most_once.
  - rewrite inject_eq. destruct (is_nonempty_array ds); [|done]. cbn [fst].
    apply dispatch_at_most_once.
Qed.

(** X8.  [register(name, v)] deals only with the resolvers on the pending
    list of [name]: a function that is not on that list keeps its flag and
    its dependency list and is not called, whatever the value. *)
Theorem register_ignores_unlisted s name v g
    (Hnot : g ∉ pending s name) :
  resolver (register (VStr name) v s).1 g = resolver s g
  ∧ calls_of g (calls (register (VStr name) v s).1) = calls_of g (calls s).
Proof.
  pose proof (register_not_pending s name v g Hnot) as Hst.
  split.
  - by rewrite <- !state_of_resolver, Hst.
  - by rewrite <- !state_of_calls, Hst.
Qed.

Lemma register_ignores_unlisted_witness :
  let s := run [Resolve (names ["x"]) (VFun example_g);
                Register (VStr "x") (VStr "v1")] initial in
  pending s "x" = []
  ∧ length (calls_of example_g (calls s)) = 1
  ∧ calls_of example_g (calls (register (VStr "x") (VStr "v2") s).1)
    = calls_of example_g (calls s).
Proof.
  cbv zeta.
  assert (pending (run [Resolve (names ["x"]) (VFun example_g);
                        Register (VStr "x") (VStr "v1")] initial) "x" = [])
    as Hp by (by vm_compute).
  assert (example_g ∉ pending (run [Resolve (names ["x"]) (VFun example_g);
                                    Register (VStr "x") (VStr "v1")] initial) "x")
    as Hnot by (rewrite Hp; apply not_elem_of_nil).
  split; [exact Hp|]. split; [by vm_compute|].
  exact (proj2 (register_ignores_unlisted _ "x" (VStr "v2") example_g Hnot)).
Defined.

(** ** Re-invocation on a changed value *)

(** X9.  Let [name] and the names a resolver asks for be no members of
    [Object.prototype], and let the resolver's other names have stored
    values other than [null] and [undefined].  If the resolver is still on
    the pending list of [name], it is called again when [name] is registered
    with a value, neither [null] nor [undefined], that serialises differently
    from the stored one (both being [safe]: numbers are safe integers,
    property names distinct and ordinary): whether or not it was flagged, it
    is called once with the new value in the place of [name] and the stored
    values of its other names, it ends up flagged, and it is taken off the
    pending list of [name]. *)
Theorem register_changed_value_reinvokes s name v g l
    (Hname : name ≠ "")
    (Hplain : plain name)
    (Hv : is_nullish v = false)
    (Hsafe : safe v = true)
    (Hsafe_old : safe (get_dependency (dependencies (this s)) name) = true)
    (Hin : g ∈ pending s name)
    (Hl : Resolver.dependencies (resolver s g) = Some l)
    (Hplain_l : Forall plain l)
    (Hchanged : JSON_stringify v
                ≠ JSON_stringify (get_dependency (dependencies (this s)) name))
    (Hothers : Forall (λ n, n = name
                            ∨ is_nullish (get_dependency (dependencies (this s)) n) = false)
                      l) :
  (register (VStr name) v s).2 = inr tt
  ∧ calls_of g (calls (register (VStr name) v s).1)
    = calls_of g (calls s) ++ [call_of (<[name := v]> (dependencies (this s))) g l]
  ∧ Resolver.is_resolved (resolver (register (VStr name) v s).1 g) = true
  ∧ g ∉ pending (register (VStr name) v s).1 name.
Proof.
  rewrite register_eq. simpl is_nonempty_string.
  rewrite bool_decide_eq_true_2 by done.
  assert (is_undefined v = false) as -> by (by destruct v).
  cbn [fst snd ToString]. split; [done|].
  assert (resolver (registered name v s) g
          = Resolver.set_is_resolved false (resolver s g)) as Hres.
  { rewrite registered_resolver. by rewrite decide_True. }
  assert (ready (dependencies (this (registered name v s))) l = true) as Hready.
  { rewrite registered_dependencies. apply ready_Forall.
    eapply Forall_impl; [exact Hothers|]. intros n Hn. cbn in Hn.
    rewrite get_dependency_insert. case_decide; [done|]. by destruct Hn. }
  assert (name ∈ [name]) as Hd by (by left).
  pose proof (dispatch_fires [name] (registered name v s) g name l Hd) as Hfire.
  rewrite registered_pending, Hres in Hfire.
  specialize (Hfire Hin eq_refl Hl Hready).
  split_and!.
  - by rewrite <- state_of_calls, Hfire.
  - by rewrite <- state_of_resolver, Hfire.
  - rewrite dispatch_elem_of by done. intros [_ Hs]. unfold settled, is_ready in Hs.
    rewrite Hres in Hs.
    cbn [Resolver.set_is_resolved Resolver.is_resolved Resolver.dependencies orb] in Hs.
    by rewrite Hl, Hready in Hs.
Qed.

Lemma register_changed_value_reinvokes_witness :
  let s := run [Resolve (names ["a"; "b"]) (VFun example_f);
                Register (VStr "a") (VNum 1);
                Register (VStr "b") (VNum 2)] initial in
  (plain "a" ∧ safe (VNum 5) = true
   ∧ safe (get_dependency (dependencies (this s)) "a") = true
   ∧ Forall plain ["a"; "b"])
  ∧ (pending s "a" = [example_f]
     ∧ Resolver.is_resolved (resolver s example_f) = true)
  ∧ (observe <$> calls (register (VStr "a") (VNum 5) s).1)
    = [(example_f, [("a", VNum 1); ("b", VNum 2)], [VNum 1; VNum 2]);
       (example_f, [("a", VNum 5); ("b", VNum 2)], [VNum 5; VNum 2])]
  ∧ (example_f ∉ pending (register (VStr "a") (VNum 5)
                            (run [Resolve (names ["a"; "b"]) (VFun example_f);
                                  Register (VStr "a") (VNum 1);
                                  Register (VStr "b") (VNum 2)] initial)).1 "a").
Proof.
  cbv zeta.
  assert ("a" ≠ "") as Hname by done.
  assert (is_nullish (VNum 5) = false) as Hv by done.
  assert (pending (run [Resolve (names ["a"; "b"]) (VFun example_f);
                        Register (VStr "a") (VNum 1);
                        Register (VStr "b") (VNum 2)] initial) "a" = [example_f])
    as Hp by (by vm_compute).
  assert (example_f ∈ pending (run [Resolve (names ["a"; "b"]) (VFun example_f);
                                    Register (VStr "a") (VNum 1);
                                    Register (VStr "b") (VNum 2)] initial) "a")
    as Hin by (rewrite Hp; by left).
  assert (Resolver.dependencies
            (resolver (run [Resolve (names ["a"; "b"]) (VFun example_f);
                            Register (VStr "a") (VNum 1);
                            Register (VStr "b") (VNum 2)] initial) example_f)
          = Some ["a"; "b"]) as Hl by (by vm_compute).
  assert (JSON_stringify (VNum 5)
          ≠ JSON_stringify
              (get_dependency
                 (dependencies
                    (this (run [Resolve (names ["a"; "b"]) (VFun example_f);
                                Register (VStr "a") (VNum 1);
                                Register (VStr "b") (VNum 2)] initial))) "a"))
    as Hchanged by (by vm_compute).
  assert (Forall (λ n, n = "a"
                       ∨ is_nullish
                           (get_dependency
                              (dependencies
                                 (this (run [Resolve (names ["a"; "b"]) (VFun example_f);
                                             Register (VStr "a") (VNum 1);
                                             Register (VStr "b") (VNum 2)] initial)))
                              n) = false) ["a"; "b"]) as Hothers.
  { apply Forall_cons. split; [by left|].
    apply Forall_cons. split; [right; by vm_compute | apply Forall_nil_2]. }
  assert (plain "a") as Hplain by by_evaluation.
  assert (Forall plain ["a"; "b"]) as Hplain_l by by_evaluation.
  assert (safe (VNum 5) = true) as Hsafe by (by vm_compute).
  assert (safe (get_dependency
                  (dependencies
                     (this (run [Resolve (names ["a"; "b"]) (VFun example_f);
                                 Register (VStr "a") (VNum 1);
                                 Register (VStr "b") (VNum 2)] initial))) "a") = true)
    as Hsafe_old by (by vm_compute).
  destruct (register_changed_value_reinvokes _ "a" (VNum 5) example_f ["a"; "b"]
              Hname Hplain Hv Hsafe Hsafe_old Hin Hl Hplain_l Hchanged Hothers)
    as (_ & _ & _ & Hout).
  split; [exact (conj Hplain (conj Hsafe (conj Hsafe_old Hplain_l)))|].
  split; [split; [exact Hp | by vm_compute]|]. split; [by vm_compute | exact Hout].
Defined.

(** ** Dependency lists *)

Lemma dispatch_resolver_dependencies ns s g :
  Resolver.dependencies (resolver (dispatch s ns) g)
  = Resolver.dependencies (resolver s g).
Proof.
  destruct (dispatch_cases ns s g) as [Hst | (_ & _ & Hst)];
    by rewrite <- (state_of_resolver g (dispatch s ns)), Hst.
Qed.

(** Only [resolve(_, g)] sets the dependency list of [g]. *)
Lemma exec_resolver_dependencies o s g :
  ¬ resolves g o →
  Resolver.dependencies (resolver (exec o s).1 g)
  = Resolver.dependencies (resolver s g).
Proof.
  intros Hres. destruct o as [k v | ds r | ds]; cbn [exec].
  - rewrite register_eq. destruct (is_nonempty_string k); [|done].
    destruct (is_undefined v); [done|]. cbn [fst].
    by rewrite dispatch_resolver_dependencies, registered_resolver_dependencies.
  - rewrite resolve_eq. destruct (is_nonempty_array ds); [|done].
    destruct r as [| | | | | | |h]; try done. cbn [fst].
    rewrite dispatch_resolver_dependencies. unfold attached.
    rewrite attach_fold_resolver, decide_False; [done|].
    intros [-> _]. apply Hres. by eexists.
  - rewrite inject_eq. destruct (is_nonempty_array ds); [|done]. cbn [fst].
    apply dispatch_resolver_dependencies.
Qed.

Lemma exec_calls_ready o s g :
  ¬ resolves g o →
  Resolver.dependencies (resolver s g) = None →
  calls_of g (calls (exec o s).1) = calls_of g (calls s).
Proof.
  intros Hres Hnone.
  assert (∀ s0 ns, Resolver.dependencies (resolver s0 g) = None →
            calls_of g (calls (dispatch s0 ns)) = calls_of g (calls s0)) as Hd.
  { intros s0 ns H0. rewrite <- !state_of_calls. rewrite dispatch_idle; [done|].
    right. unfold is_ready. by rewrite H0. }
  destruct o as [k v | ds r | ds]; cbn [exec].
  - rewrite register_eq. destruct (is_nonempty_string k); [|done].
    destruct (is_undefined v); [done|]. cbn [fst].
    rewrite Hd; [done|]. by rewrite registered_resolver_dependencies.
  - rewrite resolve_eq. destruct (is_nonempty_array ds); [|done].
    destruct r as [| | | | | | |h]; try done. cbn [fst].
    rewrite Hd; [by rewrite attached_calls|]. unfold attached.
    rewrite attach_fold_resolver, decide_False; [done|].
    intros [-> _]. apply Hres. by eexists.
  - rewrite inject_eq. destruct (is_nonempty_array ds); [|done]. cbn [fst].
    by apply Hd.
Qed.

(** X10.  A function whose dependency list was never set (a function put
    on a pending list through the constructor's [dependants] option, say)
    is never called, whatever is registered, resolved for other functions
    or injected. *)
Theorem never_resolved_never_called s g ops
    (Hnone : Resolver.dependencies (resolver s g) = None)
    (Hops : Forall (λ o, ¬ resolves g o) ops) :
  calls_of g (calls (run ops s)) = calls_of g (calls s).
Proof.
  revert s Hnone. induction Hops as [|o ops Ho _ IH]; intros s Hnone; [done|].
  rewrite run_cons, IH.
  - by apply exec_calls_ready.
  - by rewrite exec_resolver_dependencies.
Qed.

Lemma never_resolved_never_called_witness :
  let s := {| this := constructor {| opt_debug := None;
                                     opt_dependencies := None;
                                     opt_dependants := Some {["k" := [example_g]]} |};
              functions := ∅;
              calls := [] |} in
  let ops := [Register (VStr "k") (VStr "v"); Inject (names ["k"])] in
  pending s "k" = [example_g]
  ∧ calls_of example_g (calls (run ops s)) = calls_of example_g (calls s)
  ∧ pending (run ops s) "k" = [example_g].
Proof.
  cbv zeta. split; [by vm_compute|]. split; [|by vm_compute].
  apply never_resolved_never_called; [by vm_compute|].
  repeat constructor; by intros [? [=]].
Defined.

Lemma attach_fold_dependants_notin ns f l s d :
  d ∉ l →
  dependants (this (foldl (attach ns f) s l)) !! d = dependants (this s) !! d.
Proof.
  revert s. induction l as [|d' l IH]; intros s Hd; [done|]. cbn [foldl].
  rewrite IH by (intros ?; apply Hd; by right).
  unfold attach. cbn. rewrite lookup_insert_ne; [done|].
  intros ->. apply Hd. by left.
Qed.

(** X11.  In a store reached from a new registry by calls on names that
    are no members of [Object.prototype] and on safe values, what a
    successful [resolve(dependencies, f)] on such names does besides
    calling: the dependency list of [f] becomes the names just given,
    whatever it was before (the last call wins); no other function's list
    changes; [this.dependencies] is not changed; and the pending list of a
    name that is not among [dependencies] is not changed. *)
Theorem resolve_sets_the_list ops ds f
    (Hops : Forall exact_op ops)
    (Hplain : Forall plain (property_names ds))
    (Hsafe : safe ds = true)
    (Hds : is_nonempty_array ds = true) :
  let s := run ops initial in
  (resolve ds (VFun f) s).2 = inr tt
  ∧ Resolver.dependencies (resolver (resolve ds (VFun f) s).1 f)
    = Some (property_names ds)
  ∧ (∀ g, g ≠ f →
       Resolver.dependencies (resolver (resolve ds (VFun f) s).1 g)
       = Resolver.dependencies (resolver s g))
  ∧ dependencies (this (resolve ds (VFun f) s).1) = dependencies (this s)
  ∧ (∀ name, name ∉ property_names ds →
       dependants (this (resolve ds (VFun f) s).1) !! name
       = dependants (this s) !! name).
Proof.
  cbv zeta. generalize (run ops initial). intros s.
  rewrite resolve_eq, Hds. cbn [fst snd].
  assert (property_names ds ≠ []) as Hne.
  { destruct ds as [| | | | |[|x l]| |]; done. }
  split_and!.
  - done.
  - rewrite dispatch_resolver_dependencies. unfold attached.
    by rewrite attach_fold_resolver, decide_True.
  - intros g Hg. rewrite dispatch_resolver_dependencies. unfold attached.
    rewrite attach_fold_resolver, decide_False; [done|]. by intros [-> _].
  - rewrite dispatch_dependencies. apply attach_fold_dependencies.
  - intros name Hname. rewrite dispatch_dependants_notin by done.
    by apply attach_fold_dependants_notin.
Qed.

Lemma resolve_sets_the_list_witness :
  let s := run [Resolve (names ["a"]) (VFun example_f)] initial in
  (Forall exact_op [Resolve (names ["a"]) (VFun example_f)]
   ∧ Forall plain (property_names (names ["b"; "c"]))
   ∧ safe (names ["b"; "c"]) = true)
  ∧ Resolver.dependencies (resolver s example_f) = Some ["a"]
  ∧ Resolver.dependencies (resolver (resolve (names ["b"; "c"]) (VFun example_f) s).1
                                    example_f)
    = Some ["b"; "c"].
Proof.
  cbv zeta.
  assert (Forall exact_op [Resolve (names ["a"]) (VFun example_f)]) as Hops
    by by_evaluation.
  assert (Forall plain (property_names (names ["b"; "c"]))) as Hplain
    by by_evaluation.
  assert (safe (names ["b"; "c"]) = true) as Hsafe by (by vm_compute).
  split; [exact (conj Hops (conj Hplain Hsafe))|].
  split; [by vm_compute|].
  assert (is_nonempty_array (names ["b"; "c"]) = true) as Hds by done.
  exact (proj1 (proj2 (resolve_sets_the_list _ (names ["b"; "c"]) example_f
                         Hops Hplain Hsafe Hds))).
Defined.

(** ** Stored values *)





(** ** A resolver of two names, in whatever order the calls come *)

Lemma perm3_inv {A} (a b c : A) l :
  l ≡ₚ [a; b; c] →
  l = [a; b; c] ∨ l = [a; c; b] ∨ l = [b; a; c]
  ∨ l = [c; a; b] ∨ l = [b; c; a] ∨ l = [c; b; a].
Proof.
  intros H. destruct (Permutation_vs_cons_inv H) as (l1 & l2 & ->).
  symmetry in H. apply Permutation_cons_app_inv in H.
  apply Permutation_length_2_inv in H.
  destruct H as [H|H];
    destruct l1 as [|x [|y [|z l1]]]; simplify_eq/=; eauto 10.
Qed.

Section two_names.
Variables (A B : string) (f : func).

Lemma fresh_register s name v :
  fresh_at s f → name ≠ "" → is_undefined v = false →
  fresh_at (register (VStr name) v s).1 f
  ∧ calls_of f (calls (register (VStr name) v s).1) = calls_of f (calls s)
  ∧ dependencies (this (register (VStr name) v s).1)
    = <[name := v]> (dependencies (this s)).
Proof.
  intros [Hnone Hflag] Hname Hv. rewrite register_eq. simpl is_nonempty_string.
  rewrite bool_decide_eq_true_2, Hv by done. cbn [fst ToString].
  assert (Resolver.dependencies (resolver (registered name v s) f) = None) as Hnone'
    by (by rewrite registered_resolver_dependencies).
  assert (state_of f (dispatch (registered name v s) [name])
          = state_of f (registered name v s)) as Hst.
  { apply dispatch_idle. right. unfold is_ready. by rewrite Hnone'. }
  split_and!.
  - unfold fresh_at. rewrite <- state_of_resolver, Hst, state_of_resolver.
    split; [done|]. rewrite registered_resolver. by case_decide.
  - by rewrite <- state_of_calls, Hst.
  - by rewrite dispatch_dependencies.
Qed.

Lemma fresh_resolve_defers s :
  fresh_at s f → ready (dependencies (this s)) [A; B] = false →
  listed (resolve (names [A; B]) (VFun f) s).1 f A B
  ∧ calls_of f (calls (resolve (names [A; B]) (VFun f) s).1) = calls_of f (calls s)
  ∧ dependencies (this (resolve (names [A; B]) (VFun f) s).1) = dependencies (this s).
Proof.
  intros [Hnone Hflag] Hnr.
  rewrite resolve_eq, is_nonempty_array_names, bool_decide_eq_true_2 by done.
  cbn [fst]. rewrite property_names_names.
  assert (resolver (attached [A; B] f s) f = Resolver.Make (Some [A; B]) false) as Hres.
  { unfold attached. rewrite attach_fold_resolver, decide_True by done.
    unfold Resolver.set_dependencies. by rewrite Hflag. }
  assert (dependencies (this (attached [A; B] f s)) = dependencies (this s)) as Hdeps
    by apply attach_fold_dependencies.
  assert (is_ready (dependencies (this (attached [A; B] f s)))
            (resolver (attached [A; B] f s) f) = false) as Hnr'.
  { rewrite Hres, Hdeps. exact Hnr. }
  assert (state_of f (dispatch (attached [A; B] f s) [A; B])
          = state_of f (attached [A; B] f s)) as Hst
    by (apply dispatch_idle; by right).
  assert (∀ d, d ∈ [A; B] → f ∈ pending (dispatch (attached [A; B] f s) [A; B]) d)
    as Hin.
  { intros d Hd. apply dispatch_elem_of; [done|]. split.
    - apply attach_fold_elem_of. by right.
    - unfold settled. by rewrite Hnr', Hres. }
  split_and!.
  - unfold listed. rewrite <- state_of_resolver, Hst, state_of_resolver, Hres.
    split_and!; [done | apply Hin; by left | apply Hin; right; by left].
  - by rewrite <- state_of_calls, Hst, state_of_calls, attached_calls.
  - by rewrite dispatch_dependencies.
Qed.

Lemma fresh_resolve_fires s :
  fresh_at s f → ready (dependencies (this s)) [A; B] = true →
  calls_of f (calls (resolve (names [A; B]) (VFun f) s).1)
  = calls_of f (calls s) ++ [call_of (dependencies (this s)) f [A; B]].
Proof.
  intros [Hnone Hflag] Hr.
  rewrite resolve_eq, is_nonempty_array_names, bool_decide_eq_true_2 by done.
  cbn [fst]. rewrite property_names_names.
  assert (A ∈ [A; B]) as HA by (by left).
  by rewrite <- state_of_calls, (attached_fires [A; B] f s A HA Hflag Hr).
Qed.

Lemma listed_register_defers s name v :
  listed s f A B → name ≠ "" → is_undefined v = false →
  ready (<[name := v]> (dependencies (this s))) [A; B] = false →
  listed (register (VStr name) v s).1 f A B
  ∧ calls_of f (calls (register (VStr name) v s).1) = calls_of f (calls s)
  ∧ dependencies (this (register (VStr name) v s).1)
    = <[name := v]> (dependencies (this s)).
Proof.
  intros (Hres & HinA & HinB) Hname Hv Hnr. rewrite register_eq.
  simpl is_nonempty_string. rewrite bool_decide_eq_true_2, Hv by done.
  cbn [fst ToString].
  assert (resolver (registered name v s) f = Resolver.Make (Some [A; B]) false)
    as Hres'.
  { rewrite registered_resolver, Hres. by case_decide. }
  assert (is_ready (dependencies (this (registered name v s)))
            (resolver (registered name v s) f) = false) as Hnr'
    by (by rewrite Hres').
  assert (state_of f (dispatch (registered name v s) [name])
          = state_of f (registered name v s)) as Hst
    by (apply dispatch_idle; by right).
  assert (∀ d, f ∈ pending s d → f ∈ pending (dispatch (registered name v s) [name]) d)
    as Hin.
  { intros d Hd. destruct (decide (d ∈ [name])) as [Hdn|Hdn].
    - apply dispatch_elem_of; [done|]. split; [done|].
      unfold settled. by rewrite Hnr', Hres'.
    - by rewrite dispatch_pending_notin. }
  split_and!.
  - unfold listed. rewrite <- state_of_resolver, Hst, state_of_resolver, Hres'.
    split_and!; [done | by apply Hin | by apply Hin].
  - by rewrite <- state_of_calls, Hst.
  - by rewrite dispatch_dependencies.
Qed.

Lemma listed_register_fires s name v :
  listed s f A B → name ≠ "" → is_undefined v = false →
  f ∈ pending s name →
  ready (<[name := v]> (dependencies (this s))) [A; B] = true →
  calls_of f (calls (register (VStr name) v s).1)
  = calls_of f (calls s)
    ++ [call_of (<[name := v]> (dependencies (this s))) f [A; B]].
Proof.
  intros (Hres & _ & _) Hname Hv Hin Hr. rewrite register_eq.
  simpl is_nonempty_string. rewrite bool_decide_eq_true_2, Hv by done.
  cbn [fst ToString].
  assert (resolver (registered name v s) f = Resolver.Make (Some [A; B]) false)
    as Hres'.
  { rewrite registered_resolver, Hres. by case_decide. }
  assert (name ∈ [name]) as Hd by (by left).
  rewrite <- state_of_calls.
  rewrite (dispatch_fires [name] (registered name v s) f name [A; B] Hd);
    [done | done | by rewrite Hres' | by rewrite Hres' | done].
Qed.

Lemma ready_two deps a b :
  ready deps [a; b]
  = negb (is_nullish (get_dependency deps a)) && negb (is_nullish (get_dependency deps b)).
Proof. cbn. by rewrite andb_true_r. Qed.

Lemma call_of_two deps a b va vb :
  deps !! a = Some va → deps !! b = Some vb →
  call_of deps f [a; b]
  = {| callee := f; this_arg := <[b := vb]> {[a := va]}; arguments := [va; vb] |}.
Proof.
  intros Ha Hb. unfold call_of, context_of, get_dependency. cbn.
  by rewrite Ha, Hb, insert_empty.
Qed.
End two_names.

(** X13.  Let [A] and [B] be no members of [Object.prototype].  Take a
    store in which neither [A] nor [B] has a value and [f] has
    never been resolved, and make the three calls [register(A, vA)],
    [register(B, vB)] and [resolve([A, B], f)] in any of their six orders,
    the values being neither [null] nor [undefined].  Then [f] has not been
    called after the first two calls, and the third calls it exactly once,
    with the arguments [(vA, vB)] and the receiver [{A: vA, B: vB}]. *)
Theorem two_names_in_any_order s A B vA vB f ops
    (HAB : A ≠ B) (HA : A ≠ "") (HB : B ≠ "")
    (HpA : plain A) (HpB : plain B)
    (HvA : is_nullish vA = false) (HvB : is_nullish vB = false)
    (HnA : dependencies (this s) !! A = None)
    (HnB : dependencies (this s) !! B = None)
    (Hfresh : fresh_at s f)
    (Hops : ops ≡ₚ [Register (VStr A) vA; Register (VStr B) vB;
                    Resolve (names [A; B]) (VFun f)]) :
  calls_of f (calls (run (take 2 ops) s)) = calls_of f (calls s)
  ∧ calls_of f (calls (run ops s))
    = calls_of f (calls s)
      ++ [{| callee := f; this_arg := <[B := vB]> {[A := vA]}; arguments := [vA; vB] |}].
Proof.
  assert (is_undefined vA = false) as HuA by (by destruct vA).
  assert (is_undefined vB = false) as HuB by (by destruct vB).
  assert (get_dependency (dependencies (this s)) A = VUndefined) as HgA
    by (unfold get_dependency; by rewrite HnA).
  assert (get_dependency (dependencies (this s)) B = VUndefined) as HgB
    by (unfold get_dependency; by rewrite HnB).
  assert (B ≠ A) as HBA by done.
  apply perm3_inv in Hops as [-> | [-> | [-> | [-> | [-> | ->]]]]];
    cbn [take]; rewrite !run_cons; cbn [exec run foldl].
  - (* register A, register B, resolve *)
    destruct (fresh_register f s A vA Hfresh HA HuA) as (F1 & C1 & D1).
    destruct (fresh_register f _ B vB F1 HB HuB) as (F2 & C2 & D2).
    rewrite D1 in D2. split; [congruence|].
    rewrite (fresh_resolve_fires A B f _ F2).
    + rewrite C2, C1, D2. do 2 f_equal. apply call_of_two.
      * by rewrite lookup_insert_ne, lookup_insert_eq.
      * by rewrite lookup_insert_eq.
    + rewrite D2, ready_two, !get_dependency_insert.
      rewrite decide_False, decide_True, decide_True by done. by rewrite HvA, HvB.
  - (* register A, resolve, register B *)
    destruct (fresh_register f s A vA Hfresh HA HuA) as (F1 & C1 & D1).
    destruct (fresh_resolve_defers A B f _ F1) as (L2 & C2 & D2).
    { rewrite D1, ready_two, !get_dependency_insert.
      rewrite decide_True, decide_False by done. rewrite HgB. by rewrite andb_false_r. }
    rewrite D1 in D2. split; [congruence|].
    rewrite (listed_register_fires A B f _ B vB L2 HB HuB).
    + rewrite C2, C1, D2. do 2 f_equal. apply call_of_two.
      * by rewrite lookup_insert_ne, lookup_insert_eq.
      * by rewrite lookup_insert_eq.
    + by destruct L2 as (_ & _ & ?).
    + rewrite D2, ready_two, !get_dependency_insert.
      rewrite decide_False, decide_True, decide_True by done. by rewrite HvA, HvB.
  - (* register B, register A, resolve *)
    destruct (fresh_register f s B vB Hfresh HB HuB) as (F1 & C1 & D1).
    destruct (fresh_register f _ A vA F1 HA HuA) as (F2 & C2 & D2).
    rewrite D1 in D2. split; [congruence|].
    rewrite (fresh_resolve_fires A B f _ F2).
    + rewrite C2, C1, D2. do 2 f_equal. apply call_of_two.
      * by rewrite lookup_insert_eq.
      * by rewrite lookup_insert_ne, lookup_insert_eq.
    + rewrite D2, ready_two, !get_dependency_insert.
      rewrite decide_True, decide_False, decide_True by done. by rewrite HvA, HvB.
  - (* resolve, register A, register B *)
    destruct (fresh_resolve_defers A B f s Hfresh) as (L1 & C1 & D1).
    { rewrite ready_two, HgA. done. }
    destruct (listed_register_defers A B f _ A vA L1 HA HuA) as (L2 & C2 & D2).
    { rewrite D1, ready_two, !get_dependency_insert.
      rewrite decide_True, decide_False by done. rewrite HgB. by rewrite andb_false_r. }
    rewrite D1 in D2. split; [congruence|].
    rewrite (listed_register_fires A B f _ B vB L2 HB HuB).
    + rewrite C2, C1, D2. do 2 f_equal. apply call_of_two.
      * by rewrite lookup_insert_ne, lookup_insert_eq.
      * by rewrite lookup_insert_eq.
    + by destruct L2 as (_ & _ & ?).
    + rewrite D2, ready_two, !get_dependency_insert.
      rewrite decide_False, decide_True, decide_True by done. by rewrite HvA, HvB.
  - (* register B, resolve, register A *)
    destruct (fresh_register f s B vB Hfresh HB HuB) as (F1 & C1 & D1).
    destruct (fresh_resolve_defers A B f _ F1) as (L2 & C2 & D2).
    { rewrite D1, ready_two, !get_dependency_insert.
      rewrite decide_False by done. rewrite HgA. done. }
    rewrite D1 in D2. split; [congruence|].
    rewrite (listed_register_fires A B f _ A vA L2 HA HuA).
    + rewrite C2, C1, D2. do 2 f_equal. apply call_of_two.
      * by rewrite lookup_insert_eq.
      * by rewrite lookup_insert_ne, lookup_insert_eq.
    + by destruct L2 as (_ & ? & _).
    + rewrite D2, ready_two, !get_dependency_insert.
      rewrite decide_True, decide_False, decide_True by done. by rewrite HvA, HvB.
  - (* resolve, register B, register A *)
    destruct (fresh_resolve_defers A B f s Hfresh) as (L1 & C1 & D1).
    { rewrite ready_two, HgA. done. }
    destruct (listed_register_defers A B f _ B vB L1 HB HuB) as (L2 & C2 & D2).
    { rewrite D1, ready_two, !get_dependency_insert.
      rewrite decide_False by done. rewrite HgA. done. }
    rewrite D1 in D2. split; [congruence|].
    rewrite (listed_register_fires A B f _ A vA L2 HA HuA).
    + rewrite C2, C1, D2. do 2 f_equal. apply call_of_two.
      * by rewrite lookup_insert_eq.
      * by rewrite lookup_insert_ne, lookup_insert_eq.
    + by destruct L2 as (_ & ? & _).
    + rewrite D2, ready_two, !get_dependency_insert.
      rewrite decide_True, decide_False, decide_True by done. by rewrite HvA, HvB.
Qed.


Lemma two_names_in_any_order_witness :
  let ops := [Register (VStr "b") (VNum 2);
              Resolve (names ["a"; "b"]) (VFun example_f);
              Register (VStr "a") (VNum 1)] in
  (plain "a" ∧ plain "b" ∧ fresh_at initial example_f)
  ∧ calls_of example_f (calls (run (take 2 ops) initial)) = []
  ∧ calls_of example_f (calls (run ops initial))
    = [{| callee := example_f;
          this_arg := <["b" := VNum 2]> {["a" := VNum 1]};
          arguments := [VNum 1; VNum 2] |}].
Proof.
  cbv zeta.
  assert ("a" ≠ "b") as HAB by done.
  assert ("a" ≠ "") as HA by done.
  assert ("b" ≠ "") as HB by done.
  assert (fresh_at initial example_f) as Hfresh by (split; done).
  assert ([Register (VStr "b") (VNum 2);
           Resolve (names ["a"; "b"]) (VFun example_f);
           Register (VStr "a") (VNum 1)]
          ≡ₚ [Register (VStr "a") (VNum 1); Register (VStr "b") (VNum 2);
              Resolve (names ["a"; "b"]) (VFun example_f)]) as Hops
    by apply (Permutation_app_comm [_; _] [_]).
  assert (plain "a") as HpA by by_evaluation.
  assert (plain "b") as HpB by by_evaluation.
  destruct (two_names_in_any_order initial "a" "b" (VNum 1) (VNum 2) example_f _
              HAB HA HB HpA HpB eq_refl eq_refl eq_refl eq_refl Hfresh Hops)
    as [H1 H2].
  exact (conj (conj HpA (conj HpB Hfresh)) (conj H1 H2)).
Defined.

(** ** Resolvers do not affect one another *)

Lemma visit_delta deps g r cs :
  visit deps g (r, cs) = ((visit deps g (r, [])).1, cs ++ (visit deps g (r, [])).2).
Proof.
  unfold visit. cbn [fst snd].
  destruct (Resolver.is_resolved r); cbn [fst snd]; [by rewrite app_nil_r|].
  destruct (is_ready deps r); cbn [fst snd]; [done | by rewrite app_nil_r].
Qed.

Lemma dispatch_agree ns g s1 s2 :
  agree g s1 s2 →
  agree g (dispatch s1 ns) (dispatch s2 ns)
  ∧ ∃ cs, calls_of g (calls (dispatch s1 ns)) = calls_of g (calls s1) ++ cs
          ∧ calls_of g (calls (dispatch s2 ns)) = calls_of g (calls s2) ++ cs.
Proof.
  intros (Hdeps & Hres & Hpend).
  assert (Exists (λ d, g ∈ pending s1 d) ns ↔ Exists (λ d, g ∈ pending s2 d) ns)
    as Hex.
  { rewrite !Exists_exists. split; intros (d & Hd & Hg); exists d;
      (split; [done|]); by apply Hpend. }
  pose proof (dispatch_state ns s1 g) as H1.
  pose proof (dispatch_state ns s2 g) as H2.
  rewrite <- Hdeps in H2. unfold state_of at 2 in H1. unfold state_of at 2 in H2.
  rewrite <- Hres in H2. rewrite visit_delta in H1, H2.
  assert (∀ d, g ∈ pending (dispatch s1 ns) d ↔ g ∈ pending (dispatch s2 ns) d)
    as Hpend'.
  { intros d. destruct (decide (d ∈ ns)) as [Hd|Hd].
    - rewrite !dispatch_elem_of by done. by rewrite Hpend, Hdeps, Hres.
    - by rewrite !dispatch_pending_notin. }
  destruct (decide (Exists (λ d, g ∈ pending s1 d) ns)) as [He|He].
  - rewrite decide_True in H2 by tauto.
    split.
    + unfold agree. rewrite !dispatch_dependencies.
      rewrite <- !state_of_resolver, H1, H2. done.
    + exists (visit (dependencies (this s1)) g (resolver s1 g, [])).2.
      by rewrite <- !state_of_calls, H1, H2.
  - rewrite decide_False in H2 by tauto.
    split.
    + unfold agree. rewrite !dispatch_dependencies.
      rewrite <- !state_of_resolver, H1, H2. done.
    + exists []. by rewrite <- !state_of_calls, H1, H2, !app_nil_r.
Qed.

(** X14.  A resolver is evaluated on its own: let two stores, each reached
    from a new registry by calls on names that are no members of
    [Object.prototype] and on safe values, hold the
    same registered values, give [g] the same flag and dependency list and
    have [g] pending on the same names, and differ in everything about the
    other resolvers.  Then any such call of [register], [resolve] or [inject]
    has the same outcome in both, makes the same calls to [g], and leaves the
    two stores alike for [g] again. *)
Theorem resolvers_are_independent o g ops1 ops2
    (Hops1 : Forall exact_op ops1)
    (Hops2 : Forall exact_op ops2)
    (Ho : exact_op o)
    (Hagree : agree g (run ops1 initial) (run ops2 initial)) :
  let s1 := run ops1 initial in
  let s2 := run ops2 initial in
  (exec o s1).2 = (exec o s2).2
  ∧ agree g (exec o s1).1 (exec o s2).1
  ∧ ∃ cs, calls_of g (calls (exec o s1).1) = calls_of g (calls s1) ++ cs
          ∧ calls_of g (calls (exec o s2).1) = calls_of g (calls s2) ++ cs.
Proof.
  cbv zeta. revert Hagree. generalize (run ops1 initial) (run ops2 initial).
  intros s1 s2 Hagree.
  assert (∃ cs, calls_of g (calls s1) = calls_of g (calls s1) ++ cs
                ∧ calls_of g (calls s2) = calls_of g (calls s2) ++ cs) as Hnone
    by (exists []; by rewrite !app_nil_r).
  pose proof Hagree as (Hdeps & Hres & Hpend).
  destruct o as [k v | ds r | ds]; cbn [exec].
  - rewrite !register_eq. destruct (is_nonempty_string k); [|done].
    destruct (is_undefined v); [done|]. cbn [fst snd]. split; [done|].
    rewrite <- (registered_calls (ToString k) v s1).
    rewrite <- (registered_calls (ToString k) v s2).
    apply dispatch_agree. unfold agree.
    rewrite !registered_dependencies, !registered_resolver, Hdeps, Hres.
    split_and!; [done | | done].
    repeat case_decide; try done; exfalso; rewrite Hpend in *; tauto.
  - rewrite !resolve_eq. destruct (is_nonempty_array ds); [|done].
    destruct r as [| | | | | | |h]; try done. cbn [fst snd]. split; [done|].
    rewrite <- (attached_calls (property_names ds) h s1).
    rewrite <- (attached_calls (property_names ds) h s2).
    apply dispatch_agree. unfold agree, attached.
    rewrite !attach_fold_dependencies, !attach_fold_resolver, Hres.
    split_and!; [done | done |].
    intros name. by rewrite !attach_fold_elem_of, Hpend.
  - rewrite !inject_eq. destruct (is_nonempty_array ds); [|done].
    cbn [fst snd]. split; [done|]. by apply dispatch_agree.
Qed.

Lemma elem_of_pending s name g :
  g ∈ pending s name
  ↔ ∃ l, (name, l) ∈ map_to_list (dependants (this s)) ∧ g ∈ l.
Proof.
  unfold pending, get_dependants. setoid_rewrite elem_of_map_to_list. split.
  - destruct (dependants (this s) !! name) as [l|]; [eauto|].
    by intros ?%not_elem_of_nil.
  - by intros (l & -> & ?).
Qed.

Lemma resolvers_are_independent_witness :
  let s1 := run [Resolve (names ["x"]) (VFun example_g)] initial in
  let s2 := run [Resolve (names ["x"]) (VFun example_g);
                 Resolve (names ["x"; "y"]) (VFun example_f);
                 Resolve (names ["z"]) (VFun example_f)] initial in
  (Forall exact_op [Resolve (names ["x"]) (VFun example_g)]
   ∧ Forall exact_op [Resolve (names ["x"]) (VFun example_g);
                      Resolve (names ["x"; "y"]) (VFun example_f);
                      Resolve (names ["z"]) (VFun example_f)]
   ∧ exact_op (Register (VStr "x") (VNum 3))
   ∧ agree example_g s1 s2)
  ∧ ∃ cs, calls_of example_g (calls (register (VStr "x") (VNum 3) s1).1)
          = calls_of example_g (calls s1) ++ cs
        ∧ calls_of example_g (calls (register (VStr "x") (VNum 3) s2).1)
          = calls_of example_g (calls s2) ++ cs.
Proof.
  cbv zeta.
  assert (agree example_g
            (run [Resolve (names ["x"]) (VFun example_g)] initial)
            (run [Resolve (names ["x"]) (VFun example_g);
                  Resolve (names ["x"; "y"]) (VFun example_f);
                  Resolve (names ["z"]) (VFun example_f)] initial)) as Hagree.
  { split; [by vm_compute|]. split; [by vm_compute|].
    intros name. rewrite !elem_of_pending.
    assert (map_to_list
              (dependants (this (run [Resolve (names ["x"]) (VFun example_g)] initial)))
            = [("x", [example_g])]) as -> by (by vm_compute).
    assert (map_to_list
              (dependants
                 (this (run [Resolve (names ["x"]) (VFun example_g);
                             Resolve (names ["x"; "y"]) (VFun example_f);
                             Resolve (names ["z"]) (VFun example_f)] initial)))
            = [("y", [example_f]); ("z", [example_f]); ("x", [example_g; example_f])])
      as -> by (by vm_compute).
    split; intros (l & Hl & Hg).
    - apply list_elem_of_singleton in Hl as [= -> ->].
      exists [example_g; example_f]. split; [|by left].
      do 2 right. by left.
    - rewrite !elem_of_cons in Hl.
      destruct Hl as [[= -> ->] | [[= -> ->] | [[= -> ->] | Hl]]].
      + by apply list_elem_of_singleton in Hg.
      + by apply list_elem_of_singleton in Hg.
      + exists [example_g]. split; by left.
      + by apply not_elem_of_nil in Hl. }
  assert (Forall exact_op [Resolve (names ["x"]) (VFun example_g)]) as Hops1
    by by_evaluation.
  assert (Forall exact_op [Resolve (names ["x"]) (VFun example_g);
                           Resolve (names ["x"; "y"]) (VFun example_f);
                           Resolve (names ["z"]) (VFun example_f)]) as Hops2
    by by_evaluation.
  assert (exact_op (Register (VStr "x") (VNum 3))) as Ho by by_evaluation.
  destruct (resolvers_are_independent (Register (VStr "x") (VNum 3)) example_g _ _
              Hops1 Hops2 Ho Hagree) as (_ & _ & Hcs).
  exact (conj (conj Hops1 (conj Hops2 (conj Ho Hagree))) Hcs).
Defined.


(** ** A new registry *)

Lemma calls_nil cs : (∀ g, calls_of g cs = []) → cs = [].
Proof.
  intros H. destruct cs as [|c cs]; [done|].
  specialize (H (callee c)). unfold calls_of in H.
  rewrite filter_cons_True in H by done. done.
Qed.

(** X15.  On a registry that was just constructed without options,
    [resolve] never calls anything, whatever its arguments: with valid
    arguments (a safe array whose names are no members of
    [Object.prototype], and a function) it only puts the function on the
    pending list of each of the names. *)
Theorem resolve_on_new_registry_defers ds r :
  calls (resolve ds r initial).1 = []
  ∧ ∀ f name, r = VFun f →
      Forall plain (property_names ds) → safe ds = true →
      name ∈ property_names ds →
      f ∈ pending (resolve ds r initial).1 name.
Proof.
  rewrite resolve_eq. destruct (is_nonempty_array ds) eqn:Hds.
  2:{ split; [done|]. intros f name _ _ _ Hname.
      destruct ds as [| | | | |[|x l]| |]; try done; by apply not_elem_of_nil in Hname. }
  destruct r as [| | | | | | |f]; cbn [fst]; try (split; [done | by intros ? ? [=]]).
  set (ns := property_names ds).
  assert (ns ≠ []) as Hns by (unfold ns; destruct ds as [| | | | |[|x l]| |]; done).
  assert (dependencies (this (attached ns f initial)) = ∅) as Hdeps
    by apply attach_fold_dependencies.
  assert (ready ∅ ns = false) as Hnr.
  { destruct ns as [|n ns']; [done|]. cbn. unfold get_dependency.
    by rewrite lookup_empty. }
  assert (∀ g, settled ∅ (resolver (attached ns f initial) g) = false) as Hun.
  { intros g. unfold attached. rewrite attach_fold_resolver.
    unfold settled, is_ready, resolver, resolver_of. cbn [initial functions].
    rewrite lookup_empty. case_decide; cbn; [exact Hnr | done]. }
  split.
  - apply calls_nil. intros g. rewrite <- state_of_calls, dispatch_idle.
    + by rewrite state_of_calls, attached_calls.
    + right. rewrite Hdeps. specialize (Hun g). unfold settled in Hun.
      by apply orb_false_iff in Hun as [_ ?].
  - intros f' name [= <-] _ _ Hname. apply dispatch_elem_of; [done|]. split.
    + apply attach_fold_elem_of. by right.
    + by rewrite Hdeps.
Qed.

(** ** Passing a flagged function to [resolve] *)

(** X16.  A function that is flagged as resolved when it is passed to
    [resolve] (with a safe array whose names are no members of
    [Object.prototype]) is not called by that [resolve], whatever values are
    registered; it stays flagged and is on the pending list of none of the
    names when [resolve] returns. *)
Theorem resolve_drops_flagged ds f s
    (Hds : is_nonempty_array ds = true)
    (Hplain : Forall plain (property_names ds))
    (Hsafe : safe ds = true)
    (Hflag : Resolver.is_resolved (resolver s f) = true) :
  calls_of f (calls (resolve ds (VFun f) s).1) = calls_of f (calls s)
  ∧ Resolver.is_resolved (resolver (resolve ds (VFun f) s).1 f) = true
  ∧ ∀ name, name ∈ property_names ds → f ∉ pending (resolve ds (VFun f) s).1 name.
Proof.
  rewrite resolve_eq, Hds. cbn [fst].
  assert (Resolver.is_resolved (resolver (attached (property_names ds) f s) f) = true)
    as Hflag'.
  { unfold attached. rewrite attach_fold_resolver. by case_decide. }
  assert (state_of f (dispatch (attached (property_names ds) f s) (property_names ds))
          = state_of f (attached (property_names ds) f s)) as Hst
    by (apply dispatch_idle; by left).
  split_and!.
  - by rewrite <- state_of_calls, Hst, state_of_calls, attached_calls.
  - by rewrite <- state_of_resolver, Hst.
  - intros name Hname. rewrite dispatch_elem_of by done. intros [_ Hs].
    unfold settled in Hs. by rewrite Hflag' in Hs.
Qed.

Lemma resolve_drops_flagged_witness :
  let s := run [Resolve (names ["m"]) (VFun example_g);
                Register (VStr "m") (VNum 1);
                Register (VStr "n") (VNum 5)] initial in
  (Forall plain (property_names (names ["n"])) ∧ safe (names ["n"]) = true
   ∧ Resolver.is_resolved (resolver s example_g) = true)
  ∧ dependencies (this s) !! "n" = Some (VNum 5)
  ∧ calls_of example_g (calls (resolve (names ["n"]) (VFun example_g) s).1)
    = calls_of example_g (calls s).
Proof.
  cbv zeta.
  assert (Resolver.is_resolved
            (resolver (run [Resolve (names ["m"]) (VFun example_g);
                            Register (VStr "m") (VNum 1);
                            Register (VStr "n") (VNum 5)] initial) example_g) = true)
    as Hflag by (by vm_compute).
  assert (Forall plain (property_names (names ["n"]))) as Hplain by by_evaluation.
  assert (safe (names ["n"]) = true) as Hsafe by (by vm_compute).
  split; [exact (conj Hplain (conj Hsafe Hflag))|]. split; [by vm_compute|].
  exact (proj1 (resolve_drops_flagged (names ["n"]) example_g _ eq_refl
                  Hplain Hsafe Hflag)).
Defined.

(** ** Invariants of a run *)

Lemma exec_flag_called o s g :
  (Resolver.is_resolved (resolver s g) = true → calls_of g (calls s) ≠ []) →
  Resolver.is_resolved (resolver (exec o s).1 g) = true →
  calls_of g (calls (exec o s).1) ≠ [].
Proof.
  intros Hinv.
  assert (∀ s0 ns,
            calls_of g (calls s0) = calls_of g (calls s) →
            (Resolver.is_resolved (resolver s0 g) = true
             → Resolver.is_resolved (resolver s g) = true) →
            Resolver.is_resolved (resolver (dispatch s0 ns) g) = true →
            calls_of g (calls (dispatch s0 ns)) ≠ []) as Hd.
  { intros s0 ns Hc Hf.
    destruct (dispatch_cases ns s0 g) as [Hst | (_ & _ & Hst)];
      rewrite <- (state_of_resolver g (dispatch s0 ns)),
              <- (state_of_calls g (dispatch s0 ns)), Hst.
    - rewrite state_of_resolver, state_of_calls, Hc. intros Ht. by apply Hinv, Hf.
    - cbn [fst snd]. intros _. by destruct (calls_of g (calls s0)). }
  destruct o as [k v | ds r | ds]; cbn [exec].
  - rewrite register_eq. destruct (is_nonempty_string k); [|done].
    destruct (is_undefined v); [done|]. cbn [fst]. apply Hd; [done|].
    rewrite registered_resolver. by case_decide.
  - rewrite resolve_eq. destruct (is_nonempty_array ds); [|done].
    destruct r; try done. cbn [fst]. apply Hd; [by rewrite attached_calls|].
    unfold attached. rewrite attach_fold_resolver. by case_decide.
  - rewrite inject_eq. destruct (is_nonempty_array ds); [|done]. cbn [fst].
    by apply Hd.
Qed.

(** X17.  In every store reached from a new registry, a function that is
    flagged as resolved has been called at least once: only the call sets
    the flag. *)
Theorem flagged_only_by_a_call ops g
    (Hflag : Resolver.is_resolved (resolver (run ops initial) g) = true) :
  calls_of g (calls (run ops initial)) ≠ [].
Proof.
  revert Hflag. induction ops as [|o ops IH] using rev_ind.
  - unfold run, resolver, resolver_of. cbn. by rewrite lookup_empty.
  - rewrite run_snoc. by apply exec_flag_called.
Qed.

Lemma flagged_only_by_a_call_witness :
  let ops := [Resolve (names ["x"]) (VFun example_g);
              Register (VStr "x") (VStr "v1")] in
  Resolver.is_resolved (resolver (run ops initial) example_g) = true
  ∧ (calls_of example_g (calls (run ops initial)) ≠ []).
Proof.
  cbv zeta.
  assert (Resolver.is_resolved
            (resolver (run [Resolve (names ["x"]) (VFun example_g);
                            Register (VStr "x") (VStr "v1")] initial) example_g) = true)
    as Hflag by (by vm_compute).
  exact (conj Hflag (flagged_only_by_a_call _ example_g Hflag)).
Defined.

Lemma dispatch_calls_elem_of ns s c :
  c ∈ calls (dispatch s ns) →
  c ∈ calls s
  ∨ ∃ l, c = call_of (dependencies (this s)) (callee c) l
         ∧ ready (dependencies (this s)) l = true.
Proof.
  intros Hc.
  assert (c ∈ calls_of (callee c) (calls (dispatch s ns))) as Hc'
    by (by apply list_elem_of_filter).
  rewrite <- state_of_calls in Hc'.
  destruct (dispatch_cases ns s (callee c)) as [Hst | (_ & Hr & Hst)];
    rewrite Hst in Hc'; cbn [snd] in Hc'.
  - left. by apply list_elem_of_filter in Hc' as [_ ?].
  - apply elem_of_app in Hc' as [Hc' | Hc'].
    + left. by apply list_elem_of_filter in Hc' as [_ ?].
    + right. apply list_elem_of_singleton in Hc'. unfold is_ready in Hr.
      destruct (Resolver.dependencies (resolver s (callee c))) as [l|]; [|done].
      by exists l.
Qed.

Lemma dispatch_proper ns s :
  Forall proper_call (calls s) → Forall proper_call (calls (dispatch s ns)).
Proof.
  rewrite !Forall_forall. intros Hall c Hc.
  apply dispatch_calls_elem_of in Hc as [Hc | (l & -> & Hr)]; [by apply Hall|].
  unfold proper_call, call_of. cbn [arguments].
  apply Forall_fmap. by apply ready_Forall.
Qed.

(** X18.  No resolver is ever handed [null] or [undefined]: if every call
    made so far passed only other values, so does every call made by any
    further sequence of [register], [resolve] and [inject]. *)
Theorem arguments_are_never_null ops s
    (Hcalls : Forall proper_call (calls s)) :
  Forall proper_call (calls (run ops s)).
Proof.
  revert s Hcalls. induction ops as [|o ops IH]; intros s Hcalls; [done|].
  rewrite run_cons. apply IH.
  destruct o as [k v | ds r | ds]; cbn [exec].
  - rewrite register_eq. destruct (is_nonempty_string k); [|done].
    destruct (is_undefined v); [done|]. cbn [fst]. by apply dispatch_proper.
  - rewrite resolve_eq. destruct (is_nonempty_array ds); [|done].
    destruct r; try done. cbn [fst]. apply dispatch_proper.
    by rewrite attached_calls.
  - rewrite inject_eq. destruct (is_nonempty_array ds); [|done]. cbn [fst].
    by apply dispatch_proper.
Qed.

Lemma arguments_are_never_null_witness :
  let ops := [Resolve (names ["a"; "b"]) (VFun example_f);
              Register (VStr "a") VNull;
              Register (VStr "b") (VNum 2);
              Register (VStr "a") (VNum 1)] in
  Forall proper_call (calls initial)
  ∧ length (calls (run ops initial)) = 1
  ∧ Forall proper_call (calls (run ops initial)).
Proof.
  cbv zeta.
  assert (Forall proper_call (calls initial)) as Hcalls by apply Forall_nil_2.
  split; [exact Hcalls|]. split; [by vm_compute|].
  by apply arguments_are_never_null.
Defined.
